(** * fastLM: the attention kernels, the model loader and the driver of
      [src/main.cpp], embedded in Rocq.

    The C++ program works on [std::vector<std::vector<float>>]; the
    embedding keeps that representation (a list of rows of binary32
    numbers), keeps the loops of the source as loops over an index with
    the matrix updated in place, and keeps the ways the source can stop
    early: [exit(1)] in [matmul], the two [return 1] of [main], the
    exception of a [std::vector] of negative size, and an out-of-range
    [operator[]], which the C++ standard leaves undefined.  Sizes and
    indices are natural numbers: they are taken to fit in an [int].
    [printMatrix] and the timing of [main] are left out. *)

From Stdlib Require Import ZArith List Lia Bool.
From Stdlib Require Import Strings.Byte.
From Stdlib Require Import Floats.SpecFloat.
From stdpp Require Import base list.

Local Open Scope Z_scope.

(** ** binary32

    [float] in the source is IEEE 754 binary32: a 24-bit significand and
    exponents below 128.  The operations are the ones of the Standard
    Library's executable specification of IEEE arithmetic. *)
Module F32.

Definition prec : Z := 24.
Definition emax : Z := 128.

Definition float : Type := spec_float.

Definition fadd : float -> float -> float := SFadd prec emax.
Definition fsub : float -> float -> float := SFsub prec emax.
Definition fmul : float -> float -> float := SFmul prec emax.
Definition fdiv : float -> float -> float := SFdiv prec emax.
Definition fsqrt : float -> float := SFsqrt prec emax.

(** [a > b], [a < b], [a <= b] of the source: false whenever a NaN is
    compared. *)
Definition fgt (a b : float) : bool := SFltb b a.
Definition flt (a b : float) : bool := SFltb a b.
Definition fle (a b : float) : bool := SFleb a b.

(** [(float)n] for an integer [n]: round to nearest, ties to even. *)
Definition of_Z (n : Z) : float := binary_normalize prec emax n 0 false.

(** The literals of the source. *)
Definition zero : float := S754_zero false.                  (* 0.0f *)
Definition one : float := S754_finite false 8388608 (-23).   (* 1.0f *)
Definition half : float := S754_finite false 8388608 (-24).  (* 0.5f *)
Definition minus_1e9 : float := S754_finite true 15625000 6. (* -1e9 *)
Definition nan : float := S754_nan.

(** The bit pattern of a binary32 number and back (sign, 8 bits of biased
    exponent, 23 bits of fraction). *)
Definition of_bits (w : Z) : float :=
  let s := Z.testbit w 31 in
  let e := Z.land (Z.shiftr w 23) 255 in
  let m := Z.land w 8388607 in
  if e =? 0 then
    match m with
    | Zpos p => S754_finite s p (-149)
    | _ => S754_zero s
    end
  else if e =? 255 then
    (if m =? 0 then S754_infinity s else S754_nan)
  else
    match m + 8388608 with
    | Zpos p => S754_finite s p (e - 150)
    | _ => S754_nan
    end.

Definition sign_bit (s : bool) : Z := if s then 2147483648 else 0.

Definition to_bits (x : float) : Z :=
  match x with
  | S754_zero s => sign_bit s
  | S754_infinity s => sign_bit s + 2139095040
  | S754_nan => 2143289344
  | S754_finite s m e =>
      if Zpos m <? 8388608
      then sign_bit s + Zpos m
      else sign_bit s + Z.shiftl (e + 150) 23 + (Zpos m - 8388608)
  end.

End F32.

Export F32.

(** ** Outcomes

    A call either returns, or stops the program.  [DimensionMismatch] is
    [std::cerr << "Dimension mismatch!"; exit(1)] of [matmul];
    [InvalidFormat] and [StreamUnavailable] are the two [return 1] of
    [main] with their messages; [LengthError] is the exception a
    [std::vector] of negative size throws; [OutOfRange] is an
    [operator[]] outside the vector, which has no defined behaviour. *)
Inductive error : Type :=
  | DimensionMismatch
  | InvalidFormat
  | StreamUnavailable
  | LengthError
  | OutOfRange.

Inductive outcome (A : Type) : Type :=
  | Ok (a : A)
  | Err (e : error).
Arguments Ok {A} a.
Arguments Err {A} e.

#[global] Instance outcome_ret : MRet outcome := fun _ a => Ok a.
#[global] Instance outcome_bind : MBind outcome := fun _ _ k m =>
  match m with
  | Ok a => k a
  | Err e => Err e
  end.

(** [for (int i = 0; i < n; i++) body], the loop state threaded through. *)
Definition for_loop {S : Type} (n : nat) (body : nat -> S -> outcome S) (s : S)
  : outcome S :=
  fold_left (fun acc i => acc ≫= body i) (seq 0 n) (Ok s).

(** ** Matrices

    [typedef std::vector<std::vector<float>> Matrix]. *)
Abbreviation Matrix := (list (list float)).

(** [m.size()] and [m[i].size()]. *)
Definition row_size (m : Matrix) (i : nat) : outcome nat :=
  match m !! i with
  | Some row => Ok (length row)
  | None => Err OutOfRange
  end.

(** [m[i][j]] read and [m[i][j] = v]. *)
Definition get (m : Matrix) (i j : nat) : outcome float :=
  match m !! i with
  | Some row =>
      match row !! j with
      | Some v => Ok v
      | None => Err OutOfRange
      end
  | None => Err OutOfRange
  end.

Definition set (m : Matrix) (i j : nat) (v : float) : outcome Matrix :=
  match m !! i with
  | Some row =>
      if decide (j < length row)%nat
      then Ok (<[i := <[j := v]> row]> m)
      else Err OutOfRange
  | None => Err OutOfRange
  end.

(** [Matrix m(rows, std::vector<float>(cols, fill))]; without [fill] the
    cells are value-initialised, which is [0.0f]. *)
Definition alloc (rows cols : nat) (fill : float) : Matrix :=
  replicate rows (replicate cols fill).

(** ** Kernels *)

Definition matmul (A B : Matrix) : outcome Matrix :=
  let rowsA := length A in
  colsA ← row_size A 0;
  let rowsB := length B in
  colsB ← row_size B 0;
  if decide (colsA ≠ rowsB) then Err DimensionMismatch
  else
    for_loop rowsA (fun i C =>
      for_loop colsB (fun j C =>
        for_loop colsA (fun k C =>
          a ← get A i k;
          b ← get B k j;
          c ← get C i j;
          set C i j (fadd c (fmul a b))) C) C)
      (alloc rowsA colsB zero).

Definition transpose (m : Matrix) : outcome Matrix :=
  let rows := length m in
  cols ← row_size m 0;
  for_loop rows (fun i result =>
    for_loop cols (fun j result =>
      v ← get m i j;
      set result j i v) result)
    (alloc cols rows zero).

(** The search for the largest element of a row, lines 91-92 of the source:
    [max_val] starts at [-1e9] and is replaced by every element that
    compares greater. *)
Definition row_max (row : list float) : float :=
  fold_left (fun max_val val => if fgt val max_val then val else max_val)
            row minus_1e9.

Section Kernels.

(** [std::exp] on [float] is the C library's; it is not part of the
    repository and stays a parameter of the model. *)
Variable expf : float -> float.

Definition softmax (m : Matrix) : outcome Matrix :=
  let rows := length m in
  cols ← row_size m 0;
  for_loop rows (fun i m =>
    match m !! i with
    | None => Err OutOfRange
    | Some row =>
        let max_val := row_max row in
        st ← for_loop cols (fun j (st : Matrix * float) =>
                x ← get st.1 i j;
                m' ← set st.1 i j (expf (fsub x max_val));
                y ← get m' i j;
                Ok (m', fadd st.2 y)) (m, zero);
        let sum_exp := st.2 in
        for_loop cols (fun j m =>
          x ← get m i j;
          set m i j (fdiv x sum_exp)) st.1
    end) m.

Definition attention (Q K V : Matrix) : outcome Matrix :=
  K_T ← transpose K;
  scores ← matmul Q K_T;
  n ← row_size Q 0;
  let d_k := of_Z (Z.of_nat n) in
  let scale := fsqrt d_k in
  scores ← for_loop (length scores) (fun i scores =>
              cols ← row_size scores 0;
              for_loop cols (fun j scores =>
                x ← get scores i j;
                set scores i j (fdiv x scale)) scores) scores;
  scores ← softmax scores;
  matmul scores V.

Record TransformerBlock : Type :=
  { W_q : Matrix; W_k : Matrix; W_v : Matrix; W_out : Matrix }.

Definition forward (blk : TransformerBlock) (input : Matrix) : outcome Matrix :=
  Q ← matmul input (W_q blk);
  K ← matmul input (W_k blk);
  V ← matmul input (W_v blk);
  attn_out ← attention Q K V;
  matmul attn_out (W_out blk).

End Kernels.

(** ** The weight stream *)

(** A [FILE*] opened for reading: the bytes of the file, the read position,
    the [fread] calls made so far (bytes asked for, bytes delivered), newest
    first, and whether [fclose] has been called. *)
Record FILE : Type :=
  { content : list Byte.byte;
    position : nat;
    freads : list (nat * nat);
    closed : bool }.

Definition fopen (bytes : list Byte.byte) : FILE :=
  {| content := bytes; position := 0; freads := []; closed := false |}.

(** [fread(ptr, size, count, f)] delivers the bytes that are left, at most
    [size * count] of them; the count it returns is ignored at every call
    of the source. *)
Definition fread (size count : nat) (f : FILE) : list Byte.byte * FILE :=
  let got := take (size * count) (drop (position f) (content f)) in
  (got, {| content := content f;
           position := position f + length got;
           freads := (size * count, length got)%nat :: freads f;
           closed := closed f |}).

Definition fclose (f : FILE) : FILE :=
  {| content := content f; position := position f;
     freads := freads f; closed := true |}.

(** Little-endian words, the byte order of the hosts the program runs on. *)
Definition le_word (bs : list Byte.byte) : Z :=
  fold_right (fun b acc => Z.of_N (Byte.to_N b) + 256 * acc) 0 bs.

Definition byte_of_Z (z : Z) : Byte.byte :=
  match Byte.of_N (Z.to_N (z mod 256)) with
  | Some b => b
  | None => Byte.x00
  end.

Fixpoint le_bytes (n : nat) (w : Z) : list Byte.byte :=
  match n with
  | O => []
  | S n' => byte_of_Z w :: le_bytes n' (w / 256)
  end.

(** The bytes [fread] delivers replace the first bytes of the object they
    are read into; what it does not reach keeps its old bytes. *)
Definition overwrite (old got : list Byte.byte) : list Byte.byte :=
  got ++ drop (length got) old.

(** An [unsigned int] and an [int] read from their four bytes. *)
Definition as_signed (w : Z) : Z :=
  if w <? 2147483648 then w else w - 4294967296.

(** The storage of a row of floats, and a row read back from storage. *)
Definition row_bytes (row : list float) : list Byte.byte :=
  flat_map (fun x => le_bytes 4 (to_bits x)) row.

Fixpoint floats_of_bytes (n : nat) (bs : list Byte.byte) : list float :=
  match n with
  | O => []
  | S n' => of_bits (le_word (take 4 bs)) :: floats_of_bytes n' (drop 4 bs)
  end.

Definition loadMatrix (f : FILE) (m : Matrix) : outcome (Matrix * FILE) :=
  let rows := length m in
  cols ← row_size m 0;
  for_loop rows (fun i (st : Matrix * FILE) =>
    match st.1 !! i with
    | None => Err OutOfRange
    | Some row =>
        let '(got, f') := fread 4 cols st.2 in
        if decide (length got ≤ 4 * length row)%nat
        then Ok (<[i := floats_of_bytes (length row)
                          (overwrite (row_bytes row) got)]> st.1, f')
        else Err OutOfRange
    end) (m, f).

(** The constructor [TransformerBlock(int d_model, FILE* f)].  A negative
    [d_model] makes [std::vector] throw; memory is taken to be unbounded. *)
Definition TransformerBlock_new (d_model : Z) (f : FILE)
  : outcome (TransformerBlock * FILE) :=
  if d_model <? 0 then Err LengthError
  else
    let d := Z.to_nat d_model in
    let W_q := alloc d d zero in
    let W_k := alloc d d zero in
    let W_v := alloc d d zero in
    let W_out := alloc d d zero in
    st ← loadMatrix f W_q;
    let W_q := st.1 in
    st ← loadMatrix st.2 W_k;
    let W_k := st.1 in
    st ← loadMatrix st.2 W_v;
    let W_v := st.1 in
    st ← loadMatrix st.2 W_out;
    let W_out := st.1 in
    Ok ({| W_q := W_q; W_k := W_k; W_v := W_v; W_out := W_out |}, st.2).

(** ** The driver *)

Definition MAGIC : Z := 4276993775. (* 0xFEEDBEEF *)

(** Steps 2 and 3 of [main]: the magic number, then the two dimensions.
    [magic0], [layers0] and [d_model0] are what the three uninitialised
    locals hold before the reads; a read that finds four bytes replaces
    them whole. *)
Definition read_header (f : FILE) (magic0 layers0 d_model0 : Z)
  : outcome (Z * Z) * FILE :=
  let '(got, f) := fread 4 1 f in
  let magic := le_word (overwrite (le_bytes 4 magic0) got) in
  if decide (magic ≠ MAGIC) then (Err InvalidFormat, f)
  else
    let '(got, f) := fread 4 1 f in
    let layers := as_signed (le_word (overwrite (le_bytes 4 layers0) got)) in
    let '(got, f) := fread 4 1 f in
    let d_model := as_signed (le_word (overwrite (le_bytes 4 d_model0) got)) in
    (Ok (layers, d_model), f).

(** [Matrix input(3, std::vector<float>(d_model))] filled with [0.5f]. *)
Definition dummy_input (d_model : nat) : outcome Matrix :=
  for_loop 3 (fun i input =>
    for_loop d_model (fun j input => set input i j half) input)
    (alloc 3 d_model zero).

(** [main]: [disk] is the content of [models/model.bin], [None] when the
    file cannot be opened.  The result is the stream as the program leaves
    it ([None] when it was never opened; as it was before the constructor
    when the constructor does not return) and the matrix printed as
    "Final Output", or the error the run stops with. *)
Definition main (expf : float -> float) (disk : option (list Byte.byte))
    (magic0 layers0 d_model0 : Z) : option FILE * outcome Matrix :=
  match disk with
  | None => (None, Err StreamUnavailable)
  | Some bytes =>
      let f := fopen bytes in
      match read_header f magic0 layers0 d_model0 with
      | (Err e, f) => (Some f, Err e)
      | (Ok (layers, d_model), f) =>
          match TransformerBlock_new d_model f with
          | Err e => (Some f, Err e)
          | Ok (layer1, f) =>
              let f := fclose f in
              (Some f,
               input ← dummy_input (Z.to_nat d_model);
               forward expf layer1 input)
          end
      end
  end.

(** ** Random initialisation *)
Section Random.

(** [rand] and [RAND_MAX] come from [<cstdlib>]: a generator with hidden
    state [rng], and the largest value it returns. *)
Variable RAND_MAX : Z.
Variable rng : Type.
Variable rand : rng -> Z * rng.

Definition createRandomMatrix (rows cols : Z) (g : rng)
  : outcome (Matrix * rng) :=
  if (rows <? 0) || (cols <? 0) then Err LengthError
  else
    for_loop (Z.to_nat rows) (fun i st =>
      for_loop (Z.to_nat cols) (fun j (st : Matrix * rng) =>
        let '(r, g') := rand st.2 in
        m' ← set st.1 i j (fdiv (of_Z r) (of_Z RAND_MAX));
        Ok (m', g')) st)
      (alloc (Z.to_nat rows) (Z.to_nat cols) zero, g).

End Random.

(** ** Vocabulary of the statements *)

(** A matrix of [rows] rows, every row of [cols] cells. *)
Definition shape (m : Matrix) (rows cols : nat) : Prop :=
  length m = rows ∧ Forall (fun row => length row = cols) m.

(** The cell [m[i][j]] of a matrix, for indices inside it. *)
Definition entry (m : Matrix) (i j : nat) : float :=
  match get m i j with
  | Ok v => v
  | Err _ => zero
  end.

(** [acc + A[i][0]*B[0][j] + ... + A[i][n-1]*B[n-1][j]], added in this
    order in binary32. *)
Definition dot (A B : Matrix) (i j n : nat) (acc : float) : float :=
  fold_left (fun acc k => fadd acc (fmul (entry A i k) (entry B k j)))
            (seq 0 n) acc.

(** [0.0 <= x <= 1.0]. *)
Definition in_unit (x : float) : Prop :=
  fle zero x = true /\ fle x one = true.

(** The four weight matrices in the order they are loaded. *)
Definition weight (blk : TransformerBlock) (k : nat) : Matrix :=
  match k with
  | 0%nat => W_q blk
  | 1%nat => W_k blk
  | 2%nat => W_v blk
  | _ => W_out blk
  end.

(** The float stored at byte offset [o] of a sequence of bytes. *)
Definition file_float (bytes : list Byte.byte) (o : nat) : float :=
  of_bits (le_word (take 4 (drop o bytes))).

(** What a shift record stands for.  [shr_ceil] is the least integer that
    is not below the number the record approximates; [shr_loc r j mrs]
    says that the record, read at scale [2^j], locates the integer [r]:
    its significand is the quotient and its two flags place the remainder
    below, at, or above the half. *)
Definition shr_ceil (mrs : shr_record) : Z :=
  shr_m mrs + (if shr_r mrs || shr_s mrs then 1 else 0).

Definition shr_loc (r j : Z) (mrs : shr_record) : Prop :=
  0 <= shr_m mrs /\
  let rem := r - shr_m mrs * 2 ^ j in
  match shr_r mrs, shr_s mrs with
  | false, false => rem = 0
  | false, true => 0 < 2 * rem < 2 ^ j
  | true, false => 2 * rem = 2 ^ j
  | true, true => 2 ^ j < 2 * rem < 2 * 2 ^ j
  end.

(** [x] is [(float)r] for a positive [r] below [2^31]: a positive finite
    number whose value [v] is an integer; [v = r] while [r] fits in 24
    bits, and otherwise [v] is a multiple of [2^n] at most half of [2^n]
    away from [r], where [n] is the number of bits that do not fit. *)
Definition of_Z_spec (r : Z) (x : float) : Prop :=
  exists (m : positive) (e v n : Z),
    x = S754_finite false m e /\
    -23 <= e /\
    Zpos m * 2 ^ (e + 23) = v * 2 ^ 23 /\
    0 <= n <= 7 /\
    (n = 0 -> v = r /\ r < 2 ^ 24) /\
    (0 < n ->
       2 ^ (n + 23) <= r < 2 ^ (n + 24) /\
       (exists k, v = k * 2 ^ n) /\
       - 2 ^ n <= 2 * (v - r) <= 2 ^ n).

(** ** Sample data *)

Definition minus_2e9 : float := S754_finite true 15625000 7. (* -2e9f *)

Definition two : float := S754_finite false 8388608 (-22).   (* 2.0f *)

(** An [exp] that is right wherever the result does not depend on the
    library: NaN, the infinities, the zeros, and the arguments so far from
    zero that the result underflows to [+0] or overflows to [+inf].
    Between those it returns [1]; it only serves to instantiate the
    parameter [expf] in examples. *)
Definition expf_edge (x : float) : float :=
  match x with
  | S754_nan => S754_nan
  | S754_infinity true => S754_zero false
  | S754_infinity false => S754_infinity false
  | S754_zero _ => one
  | S754_finite s _ _ =>
      if fle x (of_Z (-104)) then zero
      else if fle (of_Z 89) x then S754_infinity false
      else one
  end.

Definition sample_Q : Matrix := [[one; half]; [zero; two]].
Definition sample_K : Matrix := [[half; one]; [one; one]; [two; zero]].
Definition sample_V : Matrix := [[one]; [half]; [two]].
Definition sample_A : Matrix := [[one; half]].
Definition sample_B : Matrix := [[two]].
Definition sample_W : Matrix := [[one; zero]; [zero; one]].
Definition sample_block : TransformerBlock :=
  {| W_q := sample_W; W_k := sample_W; W_v := sample_W; W_out := sample_W |}.
Definition sample_input : Matrix := [[one; two]].

(** A file that starts with [0xDEADBEEF]. *)
Definition deadbeef_file : list Byte.byte :=
  [Byte.xef; Byte.xbe; Byte.xad; Byte.xde].

(** A header with the right magic, [layers = 1] and [d_model = 2], followed
    by six bytes only: one float (1.0f) and half of the next. *)
Definition truncated_file : list Byte.byte :=
  [Byte.xef; Byte.xbe; Byte.xed; Byte.xfe;
   Byte.x01; Byte.x00; Byte.x00; Byte.x00;
   Byte.x02; Byte.x00; Byte.x00; Byte.x00;
   Byte.x00; Byte.x00; Byte.x80; Byte.x3f;
   Byte.x00; Byte.x00].

(** A header with the right magic, [layers = 1] and [d_model = -1]. *)
Definition negative_dim_file : list Byte.byte :=
  [Byte.xef; Byte.xbe; Byte.xed; Byte.xfe;
   Byte.x01; Byte.x00; Byte.x00; Byte.x00;
   Byte.xff; Byte.xff; Byte.xff; Byte.xff].

(** A complete model with [d_model = 1]: the four weights are [1.0f]. *)
Definition unit_model_file : list Byte.byte :=
  [Byte.xef; Byte.xbe; Byte.xed; Byte.xfe;
   Byte.x01; Byte.x00; Byte.x00; Byte.x00;
   Byte.x01; Byte.x00; Byte.x00; Byte.x00;
   Byte.x00; Byte.x00; Byte.x80; Byte.x3f;
   Byte.x00; Byte.x00; Byte.x80; Byte.x3f;
   Byte.x00; Byte.x00; Byte.x80; Byte.x3f;
   Byte.x00; Byte.x00; Byte.x80; Byte.x3f].

(** The generator the C standard gives as an example of [rand], with its
    [RAND_MAX]. *)
Definition ISO_RAND_MAX : Z := 32767.

Definition iso_rand (next : Z) : Z * Z :=
  let next' := (next * 1103515245 + 12345) mod 4294967296 in
  ((next' / 65536) mod 32768, next').

(** ** Vocabulary of the further properties *)

(** What lines 87-102 of [softmax] do to one row, written without the
    in-place updates: the running maximum, the exponentials shifted by it,
    their sum accumulated from [0.0f] from left to right, the quotients. *)
Definition softmax_row (expf : float -> float) (row : list float) : list float :=
  let max_val := row_max row in
  let exps := map (fun x => expf (fsub x max_val)) row in
  let sum_exp := fold_left fadd exps zero in
  map (fun e => fdiv e sum_exp) exps.

(** A key that orders the binary32 values as [<] does: the sign class, then
    the exponent, then the mantissa (both negated for negative numbers).
    The zeros and NaN share a key; it is only compared between canonical
    values. *)
Definition fkey (x : float) : Z * Z * Z :=
  match x with
  | S754_infinity true => (-2, 0, 0)
  | S754_finite true m e => (-1, - e, - Zpos m)
  | S754_zero _ => (0, 0, 0)
  | S754_nan => (0, 0, 0)
  | S754_finite false m e => (1, e, Zpos m)
  | S754_infinity false => (2, 0, 0)
  end.

Definition lex_lt (a b : Z * Z * Z) : Prop :=
  a.1.1 < b.1.1 \/
  (a.1.1 = b.1.1 /\ (a.1.2 < b.1.2 \/ (a.1.2 = b.1.2 /\ a.2 < b.2))).

Definition is_finite (x : float) : Prop :=
  match x with
  | S754_finite _ _ _ | S754_zero _ => True
  | _ => False
  end.

(** The state of the generator after [n] calls of [rand], and the value the
    call number [n] (counted from 0) returns. *)
Definition rng_after {rng : Type} (rand : rng -> Z * rng) (n : nat) (g : rng) : rng :=
  Nat.iter n (fun g => (rand g).2) g.

Definition nth_rand {rng : Type} (rand : rng -> Z * rng) (n : nat) (g : rng) : Z :=
  (rand (rng_after rand n g)).1.

(** The values a binary32 variable can hold: canonical mantissa and
    exponent. *)
Definition valid_float (x : float) : Prop := valid_binary prec emax x = true.

Definition valid_matrix (W : Matrix) : Prop := Forall (Forall valid_float) W.

(** The bytes of a matrix in a model file: row after row, each float as the
    four bytes of its bit pattern, least significant first. *)
Definition matrix_bytes (W : Matrix) : list Byte.byte := row_bytes (concat W).

(** Two runs end alike: both return, with related results, or both stop
    with the same error. *)
Definition agree {A B : Type} (R : A -> B -> Prop) (x : outcome A) (y : outcome B)
  : Prop :=
  match x, y with
  | Ok a, Ok b => R a b
  | Err e1, Err e2 => e1 = e2
  | _, _ => False
  end.

(** Two streams have the same bytes left to read. *)
Definition same_rest (f1 f2 : FILE) : Prop :=
  drop (position f1) (content f1) = drop (position f2) (content f2).

(** ** Further sample data *)

Definition sample_empty_rows : Matrix := [[]; []].

Definition sample_column : Matrix := [[zero]; [two]; [minus_1e9]].

Definition sample_row : list float := [half; two; one].

(** A stream positioned after one byte, with the four floats of [sample_W]
    and one more byte to come. *)
Definition sample_weights_stream : FILE :=
  {| content := [Byte.xff] ++ matrix_bytes sample_W ++ [Byte.x2a];
     position := 1; freads := []; closed := false |}.

(** A stream that has been read to its end. *)
Definition sample_exhausted_stream : FILE :=
  {| content := deadbeef_file; position := 4; freads := [(4, 4)%nat];
     closed := false |}.

(** The stream of [unit_model_file] after its header. *)
Definition unit_model_stream : FILE :=
  {| content := unit_model_file; position := 12; freads := []; closed := false |}.

(** [unit_model_file] with [layers = 7] in its header. *)
Definition seven_layers_file : list Byte.byte :=
  take 4 unit_model_file ++ [Byte.x07; Byte.x00; Byte.x00; Byte.x00]
    ++ drop 8 unit_model_file.

(** A header with the right magic, [layers = 1] and [d_model = 0]. *)
Definition zero_dim_file : list Byte.byte :=
  [Byte.xef; Byte.xbe; Byte.xed; Byte.xfe;
   Byte.x01; Byte.x00; Byte.x00; Byte.x00;
   Byte.x00; Byte.x00; Byte.x00; Byte.x00].

(** ** Proof steps used throughout *)

Ltac cases :=
  repeat case_decide; destruct_and?; subst;
  try reflexivity; try (exfalso; lia).

Ltac split_small n :=
  let H := fresh in
  assert (H : n = 0 \/ n = 1 \/ n = 2 \/ n = 3 \/ n = 4 \/ n = 5 \/ n = 6 \/ n = 7)
    by lia;
  destruct H as [-> | [-> | [-> | [-> | [-> | [-> | [-> | ->]]]]]]].

Ltac use_spec H0 Hp :=
  first [ destruct (H0 eq_refl) as [? ?]; clear H0 Hp
        | destruct (Hp ltac:(lia)) as (? & [? ?] & ?); clear H0 Hp ].

(** * Proofs *)

Local Close Scope Z_scope.

(** ** Loops and matrix access *)

Lemma for_loop_S {S : Type} (n : nat) (body : nat -> S -> outcome S) (s : S) :
  for_loop (Datatypes.S n) body s = for_loop n body s ≫= body n.
Proof.
  unfold for_loop. rewrite seq_S, fold_left_app. reflexivity.
Qed.

Lemma for_loop_inv {S : Type} (P : nat -> S -> Prop) (n : nat)
    (body : nat -> S -> outcome S) (s : S) :
  P 0%nat s ->
  (forall i t, (i < n)%nat -> P i t -> exists t', body i t = Ok t' /\ P (Datatypes.S i) t') ->
  exists t, for_loop n body s = Ok t /\ P n t.
Proof.
  intros H0 Hstep. induction n as [|n IH].
  - exists s. split; [reflexivity | assumption].
  - destruct IH as (t & Ht & HP).
    { intros i u Hi. apply Hstep. lia. }
    destruct (Hstep n t) as (t' & Hb & HP'); [lia | assumption |].
    exists t'. split; [| assumption].
    rewrite for_loop_S, Ht. exact Hb.
Qed.

Lemma shape_lookup (m : Matrix) (r c i : nat) :
  shape m r c -> (i < r)%nat -> exists row, m !! i = Some row /\ length row = c.
Proof.
  intros [Hl Hf] Hi.
  destruct (lookup_lt_is_Some_2 m i) as [row Hrow]; [lia |].
  exists row. split; [assumption |].
  exact (Forall_lookup_1 _ _ _ _ Hf Hrow).
Qed.

Lemma row_size_shape (m : Matrix) (r c i : nat) :
  shape m r c -> (i < r)%nat -> row_size m i = Ok c.
Proof.
  intros Hs Hi. destruct (shape_lookup m r c i Hs Hi) as (row & Hrow & Hlen).
  unfold row_size. rewrite Hrow, Hlen. reflexivity.
Qed.

Lemma get_shape (m : Matrix) (r c i j : nat) :
  shape m r c -> (i < r)%nat -> (j < c)%nat -> get m i j = Ok (entry m i j).
Proof.
  intros Hs Hi Hj. destruct (shape_lookup m r c i Hs Hi) as (row & Hrow & Hlen).
  destruct (lookup_lt_is_Some_2 row j) as [v Hv]; [lia |].
  unfold entry, get. rewrite Hrow, Hv. reflexivity.
Qed.

Lemma set_shape (m : Matrix) (r c i j : nat) (v : float) :
  shape m r c -> (i < r)%nat -> (j < c)%nat ->
  exists m', set m i j v = Ok m' /\ shape m' r c /\
    forall i' j', entry m' i' j' =
      if decide (i' = i /\ j' = j) then v else entry m i' j'.
Proof.
  intros Hs Hi Hj. destruct (shape_lookup m r c i Hs Hi) as (row & Hrow & Hlen).
  exists (<[i := <[j := v]> row]> m). split; [| split].
  - unfold set. rewrite Hrow. destruct (decide (j < length row)%nat); [reflexivity | lia].
  - destruct Hs as [Hl Hf]. split.
    + rewrite length_insert. assumption.
    + apply Forall_insert; [assumption |]. rewrite length_insert. assumption.
  - intros i' j'. unfold entry, get.
    destruct (decide (i' = i)) as [-> | Hne].
    + rewrite list_lookup_insert_eq by (destruct Hs; lia).
      rewrite Hrow.
      destruct (decide (j' = j)) as [-> | Hne'].
      * rewrite list_lookup_insert_eq by lia.
        destruct (decide (i = i /\ j = j)); [reflexivity | tauto].
      * rewrite list_lookup_insert_ne by congruence.
        destruct (decide (i = i /\ j' = j)); [tauto | reflexivity].
    + rewrite list_lookup_insert_ne by congruence.
      destruct (decide (i' = i /\ j' = j)); [tauto | reflexivity].
Qed.

Lemma alloc_shape (r c : nat) (v : float) : shape (alloc r c v) r c.
Proof.
  split.
  - apply length_replicate.
  - unfold alloc. apply Forall_replicate. apply length_replicate.
Qed.

Lemma entry_alloc (r c i j : nat) (v : float) :
  (i < r)%nat -> (j < c)%nat -> entry (alloc r c v) i j = v.
Proof.
  intros Hi Hj. unfold entry, get, alloc.
  rewrite lookup_replicate_2 by assumption.
  rewrite lookup_replicate_2 by assumption. reflexivity.
Qed.

Lemma entry_lookup (m : Matrix) (r c i j : nat) :
  shape m r c -> (i < r)%nat -> (j < c)%nat ->
  exists row, m !! i = Some row /\ row !! j = Some (entry m i j).
Proof.
  intros Hs Hi Hj. destruct (shape_lookup m r c i Hs Hi) as (row & Hrow & Hlen).
  destruct (lookup_lt_is_Some_2 row j) as [v Hv]; [lia |].
  exists row. split; [assumption |]. unfold entry, get. rewrite Hrow, Hv. reflexivity.
Qed.

Lemma matrix_ext (m m' : Matrix) (r c : nat) :
  shape m r c -> shape m' r c ->
  (forall i j, (i < r)%nat -> (j < c)%nat -> entry m i j = entry m' i j) ->
  m = m'.
Proof.
  intros Hs Hs' He. apply list_eq. intros i.
  destruct (decide (i < r)%nat) as [Hi | Hi].
  - destruct (shape_lookup m r c i Hs Hi) as (row & Hrow & Hlen).
    destruct (shape_lookup m' r c i Hs' Hi) as (row' & Hrow' & Hlen').
    rewrite Hrow, Hrow'. f_equal. apply list_eq. intros j.
    destruct (decide (j < c)%nat) as [Hj | Hj].
    + specialize (He i j Hi Hj). unfold entry, get in He.
      rewrite Hrow, Hrow' in He.
      destruct (lookup_lt_is_Some_2 row j) as [v Hv]; [lia |].
      destruct (lookup_lt_is_Some_2 row' j) as [v' Hv']; [lia |].
      rewrite Hv, Hv' in He |- *. congruence.
    + rewrite !lookup_ge_None_2 by lia. reflexivity.
  - destruct Hs, Hs'. rewrite !lookup_ge_None_2 by lia. reflexivity.
Qed.

(** ** Matrix product *)

Lemma bind_Ok {A B : Type} (a : A) (k : A -> outcome B) : (Ok a ≫= k) = k a.
Proof. reflexivity. Qed.

Lemma dot_S (A B : Matrix) (i j k : nat) (acc : float) :
  dot A B i j (S k) acc =
  fadd (dot A B i j k acc) (fmul (entry A i k) (entry B k j)).
Proof.
  unfold dot. rewrite seq_S, fold_left_app. reflexivity.
Qed.

Section Matmul.

Variables (A B : Matrix) (n m p : nat).
Hypothesis HA : shape A n m.
Hypothesis HB : shape B m p.

Lemma matmul_k_loop (C : Matrix) (i j : nat) :
  shape C n p -> (i < n)%nat -> (j < p)%nat ->
  exists C',
    for_loop m (fun k C =>
      a ← get A i k;
      b ← get B k j;
      c ← get C i j;
      set C i j (fadd c (fmul a b))) C = Ok C' /\
    shape C' n p /\
    forall i' j', entry C' i' j' =
      if decide (i' = i /\ j' = j) then dot A B i j m (entry C i j)
      else entry C i' j'.
Proof.
  intros HC Hi Hj.
  pose (Inv := (fun k C' =>
    shape C' n p /\
    forall i' j', entry C' i' j' =
      if decide (i' = i /\ j' = j) then dot A B i j k (entry C i j)
      else entry C i' j')).
  apply (for_loop_inv Inv); unfold Inv; clear Inv.
  - split; [assumption |]. intros i' j'.
    destruct (decide (i' = i /\ j' = j)) as [[-> ->] |]; reflexivity.
  - intros k C' Hk [HC' He].
    rewrite (get_shape A n m i k), bind_Ok by assumption.
    rewrite (get_shape B m p k j), bind_Ok by assumption.
    rewrite (get_shape C' n p i j), bind_Ok by assumption.
    destruct (set_shape C' n p i j
                (fadd (entry C' i j) (fmul (entry A i k) (entry B k j)))
                HC' Hi Hj) as (C'' & Hset & HC'' & He'').
    exists C''. split; [assumption |]. split; [assumption |].
    intros i' j'. rewrite He''.
    destruct (decide (i' = i /\ j' = j)) as [[-> ->] | Hne].
    + rewrite dot_S, He.
      destruct (decide (i = i /\ j = j)); [reflexivity | tauto].
    + rewrite He. destruct (decide (i' = i /\ j' = j)); [tauto | reflexivity].
Qed.

Lemma matmul_j_loop (C : Matrix) (i : nat) :
  shape C n p -> (i < n)%nat ->
  exists C',
    for_loop p (fun j C =>
      for_loop m (fun k C =>
        a ← get A i k;
        b ← get B k j;
        c ← get C i j;
        set C i j (fadd c (fmul a b))) C) C = Ok C' /\
    shape C' n p /\
    forall i' j', entry C' i' j' =
      if decide (i' = i /\ (j' < p)%nat) then dot A B i j' m (entry C i j')
      else entry C i' j'.
Proof.
  intros HC Hi.
  pose (Inv := (fun j C' =>
    shape C' n p /\
    forall i' j', entry C' i' j' =
      if decide (i' = i /\ (j' < j)%nat) then dot A B i j' m (entry C i j')
      else entry C i' j')).
  apply (for_loop_inv Inv); unfold Inv; clear Inv.
  - split; [assumption |]. intros i' j'.
    destruct (decide (i' = i /\ (j' < 0)%nat)); [lia | reflexivity].
  - intros j C' Hj [HC' He].
    destruct (matmul_k_loop C' i j HC' Hi Hj) as (C'' & Hrun & HC'' & He'').
    exists C''. split; [assumption |]. split; [assumption |].
    intros i' j'. rewrite He'', !He. cases.
Qed.

Lemma matmul_i_loop (C : Matrix) :
  shape C n p ->
  exists C',
    for_loop n (fun i C =>
      for_loop p (fun j C =>
        for_loop m (fun k C =>
          a ← get A i k;
          b ← get B k j;
          c ← get C i j;
          set C i j (fadd c (fmul a b))) C) C) C = Ok C' /\
    shape C' n p /\
    forall i' j', entry C' i' j' =
      if decide ((i' < n)%nat /\ (j' < p)%nat)
      then dot A B i' j' m (entry C i' j')
      else entry C i' j'.
Proof.
  intros HC.
  pose (Inv := (fun i C' =>
    shape C' n p /\
    forall i' j', entry C' i' j' =
      if decide ((i' < i)%nat /\ (j' < p)%nat)
      then dot A B i' j' m (entry C i' j')
      else entry C i' j')).
  apply (for_loop_inv Inv); unfold Inv; clear Inv.
  - split; [assumption |]. intros i' j'.
    destruct (decide ((i' < 0)%nat /\ (j' < p)%nat)); [lia | reflexivity].
  - intros i C' Hi [HC' He].
    destruct (matmul_j_loop C' i HC' Hi) as (C'' & Hrun & HC'' & He'').
    exists C''. split; [assumption |]. split; [assumption |].
    intros i' j'. rewrite He'', !He. cases.
Qed.

Lemma matmul_ok :
  (0 < n)%nat -> (0 < m)%nat ->
  exists C, matmul A B = Ok C /\ shape C n p /\
    forall i j, (i < n)%nat -> (j < p)%nat -> entry C i j = dot A B i j m zero.
Proof.
  intros Hn Hm.
  destruct (matmul_i_loop (alloc n p zero) (alloc_shape n p zero))
    as (C & Hrun & HC & He).
  exists C. split; [| split; [assumption |]].
  - unfold matmul.
    rewrite (row_size_shape A n m 0 HA Hn), bind_Ok.
    rewrite (row_size_shape B m p 0 HB Hm), bind_Ok.
    destruct HA as [HlA _], HB as [HlB _]. rewrite HlA, HlB.
    destruct (decide (m <> m)); [congruence | assumption].
  - intros i j Hi Hj. rewrite He.
    destruct (decide ((i < n)%nat /\ (j < p)%nat)); [| lia].
    rewrite entry_alloc by assumption. reflexivity.
Qed.

End Matmul.

(** C3. For non-empty rectangular matrices [A] ([n] rows, [m] columns) and
    [B] ([m] rows, [p] columns), [matmul A B] returns a matrix [C] with the
    rows of [A] and the columns of [B], and every [C[i][j]] is the sum over
    [k] of [A[i][k] * B[k][j]], accumulated from [0.0f] for
    [k = 0, 1, ..., m-1] in single precision. *)
Theorem matmul_spec (A B : Matrix) (n m p : nat) :
  shape A n m -> shape B m p ->
  (0 < n)%nat -> (0 < m)%nat -> (0 < p)%nat ->
  exists C, matmul A B = Ok C /\ shape C n p /\
    forall i j, (i < n)%nat -> (j < p)%nat -> entry C i j = dot A B i j m zero.
Proof.
  intros HA HB Hn Hm _. exact (matmul_ok A B n m p HA HB Hn Hm).
Qed.

Lemma matmul_spec_witness :
  exists C, matmul sample_K sample_Q = Ok C /\ shape C 3 2 /\
    forall i j, (i < 3)%nat -> (j < 2)%nat ->
      entry C i j = dot sample_K sample_Q i j 2 zero.
Proof.
  apply (matmul_spec sample_K sample_Q 3 2 2);
    [split; [reflexivity | repeat constructor]
    | split; [reflexivity | repeat constructor]
    | lia | lia | lia].
Defined.

(** ** Transpose, scaling, softmax and attention *)

Lemma matmul_mismatch (A B : Matrix) (n m m' p : nat) :
  shape A n m -> shape B m' p -> (0 < n)%nat -> (0 < m')%nat -> m <> m' ->
  matmul A B = Err DimensionMismatch.
Proof.
  intros HA HB Hn Hm Hne. unfold matmul.
  rewrite (row_size_shape A n m 0 HA Hn), bind_Ok.
  rewrite (row_size_shape B m' p 0 HB Hm), bind_Ok.
  destruct HB as [-> _]. destruct (decide (m <> m')); [reflexivity | tauto].
Qed.

Lemma transpose_ok (M : Matrix) (r c : nat) :
  shape M r c -> (0 < r)%nat ->
  exists T, transpose M = Ok T /\ shape T c r /\
    forall i j, (i < r)%nat -> (j < c)%nat -> entry T j i = entry M i j.
Proof.
  intros HM Hr.
  pose (Outer := fun (i : nat) (R : Matrix) =>
    shape R c r /\
    forall j' i', entry R j' i' =
      if decide ((i' < i)%nat /\ (j' < c)%nat) then entry M i' j'
      else entry (alloc c r zero) j' i').
  destruct (for_loop_inv Outer r
    (fun i result => for_loop c (fun j result =>
       v ← get M i j; set result j i v) result) (alloc c r zero))
    as (T & Hrun & HT & He); unfold Outer in *; clear Outer.
  - split; [apply alloc_shape |]. intros; cases.
  - intros i R Hi [HR He].
    pose (Inner := fun (j : nat) (R' : Matrix) =>
      shape R' c r /\
      forall j' i', entry R' j' i' =
        if decide (i' = i /\ (j' < j)%nat) then entry M i j'
        else entry R j' i').
    destruct (for_loop_inv Inner c
      (fun j result => v ← get M i j; set result j i v) R)
      as (R' & Hrun & HR' & He'); unfold Inner in *; clear Inner.
    + split; [assumption |]. intros; cases.
    + intros j R' Hj [HR' He'].
      rewrite (get_shape M r c i j), bind_Ok by assumption.
      destruct (set_shape R' c r j i (entry M i j) HR' Hj Hi)
        as (R'' & Hset & HR'' & He'').
      exists R''. split; [assumption |]. split; [assumption |].
      intros j' i'. rewrite He'', He'. cases.
    + exists R'. split; [assumption |]. split; [assumption |].
      intros j' i'. rewrite He', He. cases.
  - exists T. split; [| split; [assumption |]].
    + unfold transpose. rewrite (row_size_shape M r c 0 HM Hr), bind_Ok.
      destruct HM as [-> _]. assumption.
    + intros i j Hi Hj. rewrite He. cases.
Qed.

Lemma shape_map (f : float -> float) (M : Matrix) (r c : nat) :
  shape M r c -> shape (map (map f) M) r c.
Proof.
  intros [Hl Hf]. split.
  - rewrite length_map. assumption.
  - apply Forall_map. eapply Forall_impl; [exact Hf |].
    intros row Hrow. simpl. rewrite length_map. assumption.
Qed.

Lemma entry_map (f : float -> float) (M : Matrix) (r c i j : nat) :
  shape M r c -> (i < r)%nat -> (j < c)%nat ->
  entry (map (map f) M) i j = f (entry M i j).
Proof.
  intros HM Hi Hj.
  destruct (entry_lookup M r c i j HM Hi Hj) as (row & Hrow & Hv).
  unfold entry at 1. unfold get.
  change (map (map f) M) with (fmap (M := list) (fmap (M := list) f) M).
  rewrite list_lookup_fmap, Hrow. simpl.
  change (map f row) with (fmap (M := list) f row).
  rewrite list_lookup_fmap, Hv. reflexivity.
Qed.

(** The scaling loop of [attention]. *)
Lemma scale_loop (f : float -> float) (S : Matrix) (n k : nat) :
  shape S n k -> 
  for_loop (length S) (fun i scores =>
    cols ← row_size scores 0;
    for_loop cols (fun j scores =>
      x ← get scores i j;
      set scores i j (f x)) scores) S = Ok (map (map f) S).
Proof.
  intros HS.
  pose (Outer := fun (i : nat) (R : Matrix) =>
    shape R n k /\
    forall i' j', entry R i' j' =
      if decide ((i' < i)%nat /\ (j' < k)%nat) then f (entry S i' j')
      else entry S i' j').
  destruct (for_loop_inv Outer n
    (fun i scores =>
      cols ← row_size scores 0;
      for_loop cols (fun j scores =>
        x ← get scores i j;
        set scores i j (f x)) scores) S)
    as (T & Hrun & HT & He); unfold Outer in *; clear Outer.
  - split; [assumption |]. intros; cases.
  - intros i R Hi [HR He].
    rewrite (row_size_shape R n k 0 HR), bind_Ok by lia.
    pose (Inner := fun (j : nat) (R' : Matrix) =>
      shape R' n k /\
      forall i' j', entry R' i' j' =
        if decide (i' = i /\ (j' < j)%nat) then f (entry S i j')
        else entry R i' j').
    destruct (for_loop_inv Inner k
      (fun j scores => x ← get scores i j; set scores i j (f x)) R)
      as (R' & Hrun & HR' & He'); unfold Inner in *; clear Inner.
    + split; [assumption |]. intros; cases.
    + intros j R' Hj [HR' He'].
      rewrite (get_shape R' n k i j), bind_Ok by assumption.
      destruct (set_shape R' n k i j (f (entry R' i j)) HR' Hi Hj)
        as (R'' & Hset & HR'' & He'').
      exists R''. split; [assumption |]. split; [assumption |].
      intros i' j'. rewrite He'', !He', !He. cases.
    + exists R'. split; [assumption |]. split; [assumption |].
      intros i' j'. rewrite He', He. cases.
  - destruct HS as [Hl Hf]. rewrite Hl, Hrun. f_equal.
    apply (matrix_ext _ _ n k); [assumption | apply shape_map; split; assumption |].
    intros i j Hi Hj. rewrite He, (entry_map f S n k) by (try split; assumption).
    cases.
Qed.

Section Softmax.

Variable expf : float -> float.

Lemma softmax_ok (M : Matrix) (r c : nat) :
  shape M r c -> (0 < r)%nat ->
  exists P, softmax expf M = Ok P /\ shape P r c.
Proof.
  intros HM Hr. unfold softmax.
  rewrite (row_size_shape M r c 0 HM Hr), bind_Ok.
  destruct HM as [Hl Hf]. rewrite Hl.
  apply (for_loop_inv (fun _ P => shape P r c)); [split; assumption |].
  intros i P Hi HP.
  destruct (shape_lookup P r c i HP Hi) as (row & Hrow & Hlen).
  rewrite Hrow.
  destruct (for_loop_inv (fun _ (st : Matrix * float) => shape st.1 r c) c
    (fun j (st : Matrix * float) =>
       x ← get st.1 i j;
       m' ← set st.1 i j (expf (fsub x (row_max row)));
       y ← get m' i j;
       Ok (m', fadd st.2 y)) (P, zero)) as ([P1 sum] & Hrun & HP1).
  - assumption.
  - intros j [P1 sum] Hj HP1. simpl in HP1 |- *.
    rewrite (get_shape P1 r c i j), bind_Ok by assumption.
    destruct (set_shape P1 r c i j
      (expf (fsub (entry P1 i j) (row_max row))) HP1 Hi Hj)
      as (P2 & Hset & HP2 & _).
    rewrite Hset, bind_Ok.
    rewrite (get_shape P2 r c i j), bind_Ok by assumption.
    eexists. split; [reflexivity | assumption].
  - rewrite Hrun, bind_Ok. simpl in HP1 |- *.
    apply (for_loop_inv (fun _ P => shape P r c)); [assumption |].
    intros j P2 Hj HP2.
    rewrite (get_shape P2 r c i j), bind_Ok by assumption.
    destruct (set_shape P2 r c i j (fdiv (entry P2 i j) sum) HP2 Hi Hj)
      as (P3 & Hset & HP3 & _).
    exists P3. split; assumption.
Qed.

Lemma attention_ok (Q K V : Matrix) (nq nk d dv : nat) :
  shape Q nq d -> shape K nk d -> shape V nk dv ->
  (0 < nq)%nat -> (0 < nk)%nat -> (0 < d)%nat ->
  exists K_T S P R,
    transpose K = Ok K_T /\
    matmul Q K_T = Ok S /\
    softmax expf
      (map (map (fun x => fdiv x (fsqrt (of_Z (Z.of_nat d))))) S) = Ok P /\
    matmul P V = Ok R /\
    attention expf Q K V = Ok R /\
    shape R nq dv.
Proof.
  intros HQ HK HV Hnq Hnk Hd.
  destruct (transpose_ok K nk d HK Hnk) as (K_T & HT & HKT & _).
  destruct (matmul_ok Q K_T nq d nk HQ HKT Hnq Hd) as (S & HS & HSs & _).
  pose proof (shape_map (fun x => fdiv x (fsqrt (of_Z (Z.of_nat d)))) S nq nk HSs)
    as HSc.
  destruct (softmax_ok _ nq nk HSc Hnq) as (P & HP & HPs).
  destruct (matmul_ok P V nq nk dv HPs HV Hnq Hnk) as (R & HR & HRs & _).
  exists K_T, S, P, R. repeat (split; [assumption |]).
  split; [| assumption].
  unfold attention. rewrite HT, bind_Ok, HS, bind_Ok.
  rewrite (row_size_shape Q nq d 0 HQ Hnq), bind_Ok.
  rewrite (scale_loop _ S nq nk HSs), bind_Ok.
  rewrite HP, bind_Ok. exact HR.
Qed.

End Softmax.

(** C1. For matrices [Q], [K], [V] with [Q.cols = K.cols] and
    [K.rows = V.rows], [attention Q K V] returns
    [softmax (Q x transpose K, every element divided by sqrt d_k) x V],
    where [d_k] is the column count of [Q], and the result has the rows of
    [Q] and the columns of [V]. *)
Theorem attention_spec (expf : float -> float) (Q K V : Matrix)
    (nq nk d dv : nat) :
  shape Q nq d -> shape K nk d -> shape V nk dv ->
  (0 < nq)%nat -> (0 < nk)%nat -> (0 < d)%nat ->
  exists K_T S P R,
    transpose K = Ok K_T /\
    matmul Q K_T = Ok S /\
    softmax expf
      (map (map (fun x => fdiv x (fsqrt (of_Z (Z.of_nat d))))) S) = Ok P /\
    matmul P V = Ok R /\
    attention expf Q K V = Ok R /\
    shape R nq dv.
Proof.
  exact (attention_ok expf Q K V nq nk d dv).
Qed.

Lemma attention_spec_witness :
  exists K_T S P R,
    transpose sample_K = Ok K_T /\
    matmul sample_Q K_T = Ok S /\
    softmax expf_edge
      (map (map (fun x => fdiv x (fsqrt (of_Z (Z.of_nat 2))))) S) = Ok P /\
    matmul P sample_V = Ok R /\
    attention expf_edge sample_Q sample_K sample_V = Ok R /\
    shape R 2 1.
Proof.
  apply (attention_spec expf_edge sample_Q sample_K sample_V 2 3 2 1);
    [split; [reflexivity | repeat constructor]
    | split; [reflexivity | repeat constructor]
    | split; [reflexivity | repeat constructor]
    | lia | lia | lia].
Defined.

(** ** Errors, the header and the driver *)

(** C5. The value [max_val] that [softmax] subtracts is meant to be the
    largest element of the row.  On the row [[-2e9]] the search returns its
    starting value [-1e9], which is not an element of the row and is
    greater than the only element; and [-1e9] is what [softmax] subtracts
    from that element before it calls [exp]. *)
Theorem row_max_far_negative :
  row_max [minus_2e9] = minus_1e9 /\
  row_max [minus_2e9] <> minus_2e9 /\
  flt minus_2e9 (row_max [minus_2e9]) = true /\
  forall expf,
    softmax expf [[minus_2e9]] =
    Ok [[fdiv (expf (fsub minus_2e9 minus_1e9))
              (fadd zero (expf (fsub minus_2e9 minus_1e9)))]].
Proof.
  split; [reflexivity |]. split; [discriminate |]. split; reflexivity.
Qed.

(** C4. After [softmax] every element should lie in [0, 1] and every row
    should sum to 1.  On the one-by-one matrix [[-2e9]] the element is
    exponentiated after subtracting [-1e9], not itself; with an [exp] that
    underflows to [+0] at [-1e9], the row sum is [0], and the element
    becomes [0/0], a NaN, which is neither at least [0] nor at most [1]. *)
Theorem softmax_far_negative (expf : float -> float) :
  expf minus_1e9 = zero ->
  softmax expf [[minus_2e9]] = Ok [[nan]] /\
  fadd zero nan = nan /\
  fle zero nan = false /\ fle nan one = false.
Proof.
  intros H.
  assert (E : softmax expf [[minus_2e9]] =
    Ok [[fdiv (expf minus_1e9) (fadd zero (expf minus_1e9))]]) by reflexivity.
  rewrite E, H. repeat split.
Qed.

Lemma softmax_far_negative_witness :
  softmax expf_edge [[minus_2e9]] = Ok [[nan]] /\
  fadd zero nan = nan /\
  fle zero nan = false /\ fle nan one = false.
Proof.
  apply (softmax_far_negative expf_edge). reflexivity.
Defined.

(** C10. Every path of [main] that opens the stream should close it
    before it goes on or exits.  On a file that starts with [0xDEADBEEF]
    the run stops with the invalid-format error after the one read of the
    magic number, and [fclose] has not been called on the stream; the same
    holds on a file whose header gives a negative [d_model], where the
    constructor throws. *)
Theorem main_bad_magic_leaves_stream_open (expf : float -> float)
    (magic0 layers0 d_model0 : Z) :
  (exists f,
     main expf (Some deadbeef_file) magic0 layers0 d_model0
       = (Some f, Err InvalidFormat) /\
     closed f = false /\ freads f = [(4, 4)%nat]) /\
  (exists f,
     main expf (Some negative_dim_file) magic0 layers0 d_model0
       = (Some f, Err LengthError) /\
     closed f = false).
Proof.
  split; eexists; (split; [reflexivity |]); repeat split.
Qed.

(** The path that loads a complete model does call [fclose], after the
    last read and before the forward pass. *)
Lemma main_unit_model_closes_stream (expf : float -> float)
    (magic0 layers0 d_model0 : Z) :
  exists f,
    (main expf (Some unit_model_file) magic0 layers0 d_model0).1 = Some f /\
    closed f = true /\ position f = 28%nat.
Proof.
  unfold main.
  assert (H : read_header (fopen unit_model_file) magic0 layers0 d_model0 =
     (Ok (1, 1)%Z, {| content := unit_model_file; position := 12;
                      freads := [(4, 4); (4, 4); (4, 4)]%nat;
                      closed := false |}))
    by reflexivity.
  rewrite H.
  destruct (TransformerBlock_new 1
              {| content := unit_model_file; position := 12;
                 freads := [(4, 4); (4, 4); (4, 4)]%nat; closed := false |})
    as [[blk f] | e] eqn:E; vm_compute in E; [| discriminate].
  injection E as <- <-.
  eexists. split; [reflexivity |]. split; reflexivity.
Qed.

Lemma overwrite_full (old got : list Byte.byte) :
  length got = length old -> overwrite old got = got.
Proof.
  intros H. unfold overwrite. rewrite drop_ge by lia. apply app_nil_r.
Qed.

Lemma length_le_bytes (n : nat) (w : Z) : length (le_bytes n w) = n.
Proof.
  revert w. induction n as [|n IH]; intros w; simpl; [reflexivity |].
  rewrite IH. reflexivity.
Qed.

(** C7. Reading the header of a stream that holds a first four-byte word:
    it fails with [InvalidFormat] exactly when that word differs from
    [0xFEEDBEEF]; on that failure the read of the magic number is the only
    read made; when the word is [0xFEEDBEEF] two more reads of four bytes
    follow, and where the stream holds them they give the layer count and
    then [d_model] as signed 32-bit integers. *)
Theorem read_header_spec (f : FILE) (magic0 layers0 d_model0 : Z) :
  let word := take 4 (drop (position f) (content f)) in
  let r := read_header f magic0 layers0 d_model0 in
  length word = 4%nat ->
  (r.1 = Err InvalidFormat <-> le_word word <> MAGIC) /\
  (le_word word <> MAGIC ->
     freads r.2 = (4, 4)%nat :: freads f /\
     position r.2 = (position f + 4)%nat) /\
  (le_word word = MAGIC ->
     map fst (freads r.2) = 4%nat :: 4%nat :: 4%nat :: map fst (freads f) /\
     ((position f + 12 <= length (content f))%nat ->
        r.1 = Ok (as_signed (le_word (take 4 (drop (position f + 4) (content f)))),
                  as_signed (le_word (take 4 (drop (position f + 8) (content f))))) /\
        position r.2 = (position f + 12)%nat)).
Proof.
  intros word r Hlen. subst r. unfold read_header, fread. cbn [Nat.mul Nat.add].
  fold word. cbn [content position freads closed].
  rewrite (overwrite_full (le_bytes 4 magic0) word)
    by (rewrite length_le_bytes; exact Hlen).
  destruct (decide (le_word word <> MAGIC)) as [Hne | Heq].
  - split; [| split].
    + split; [intros _; exact Hne | reflexivity].
    + intros _. rewrite Hlen. split; reflexivity.
    + intros Heq. contradiction.
  - assert (Heq' : le_word word = MAGIC) by (destruct (decide (le_word word = MAGIC)); tauto).
    split; [| split].
    + cbn. split; [discriminate | intros Hne; contradiction].
    + intros Hne. contradiction.
    + intros _. split; [reflexivity |].
      intros Hlong. cbn [fst snd position].
      rewrite Hlen.
      assert (H1 : length (take 4 (drop (position f + 4) (content f))) = 4%nat)
        by (rewrite length_take, length_drop; lia).
      rewrite (overwrite_full (le_bytes 4 layers0)) by (rewrite length_le_bytes; exact H1).
      rewrite H1.
      replace (position f + 4 + 4)%nat with (position f + 8)%nat by lia.
      assert (H2 : length (take 4 (drop (position f + 8) (content f))) = 4%nat)
        by (rewrite length_take, length_drop; lia).
      rewrite (overwrite_full (le_bytes 4 d_model0)) by (rewrite length_le_bytes; exact H2).
      rewrite H2. split; [reflexivity | lia].
Qed.

Lemma read_header_spec_witness :
  (read_header (fopen truncated_file) 0 0 0).1 = Ok (1, 2)%Z /\
  position (read_header (fopen truncated_file) 0 0 0).2 = 12%nat.
Proof.
  destruct (read_header_spec (fopen truncated_file) 0 0 0 eq_refl)
    as (_ & _ & Hok).
  destruct (Hok eq_refl) as [_ Hvalues].
  apply Hvalues. simpl. lia.
Defined.

Lemma matmul_fails_iff (A B : Matrix) (n m m' p : nat) :
  shape A n m -> shape B m' p ->
  (0 < n)%nat -> (0 < m)%nat -> (0 < m')%nat ->
  (matmul A B = Err DimensionMismatch <-> m <> m') /\
  (forall C, matmul A B = Ok C -> m = m' /\ shape C n p).
Proof.
  intros HA HB Hn Hm Hm'.
  destruct (decide (m = m')) as [<- | Hne].
  - destruct (matmul_ok A B n m p HA HB Hn Hm) as (C & HC & HCs & _).
    split.
    + rewrite HC. split; [discriminate | congruence].
    + intros C' HC'. rewrite HC in HC'. injection HC' as <-.
      split; [reflexivity | assumption].
  - rewrite (matmul_mismatch A B n m m' p HA HB Hn Hm' Hne).
    split; [tauto | discriminate].
Qed.

Section AttentionErrors.

Variable expf : float -> float.

Lemma attention_fails_iff (Q K V : Matrix) (nq dq nk dk nv dv : nat) :
  shape Q nq dq -> shape K nk dk -> shape V nv dv ->
  (0 < nq)%nat -> (0 < dq)%nat -> (0 < nk)%nat -> (0 < dk)%nat ->
  (0 < nv)%nat ->
  (attention expf Q K V = Err DimensionMismatch <-> dq <> dk \/ nk <> nv) /\
  (forall R, attention expf Q K V = Ok R ->
     dq = dk /\ nk = nv /\ shape R nq dv).
Proof.
  intros HQ HK HV Hnq Hdq Hnk Hdk Hnv.
  destruct (transpose_ok K nk dk HK Hnk) as (K_T & HT & HKT & _).
  destruct (decide (dq = dk)) as [<- | Hne].
  - destruct (decide (nk = nv)) as [<- | Hne].
    + destruct (attention_ok expf Q K V nq nk dq dv HQ HK HV Hnq Hnk Hdq)
        as (_ & _ & _ & R & _ & _ & _ & _ & HR & HRs).
      rewrite HR. split.
      * split; [discriminate | intros [? | ?]; congruence].
      * intros R' HR'. injection HR' as <-. auto.
    + assert (E : attention expf Q K V = Err DimensionMismatch).
      { destruct (matmul_ok Q K_T nq dq nk HQ HKT Hnq Hdq) as (S & HS & HSs & _).
        pose proof (shape_map (fun x => fdiv x (fsqrt (of_Z (Z.of_nat dq)))) S nq nk HSs)
          as HSc.
        destruct (softmax_ok expf _ nq nk HSc Hnq) as (P & HP & HPs).
        unfold attention. rewrite HT, bind_Ok, HS, bind_Ok.
        rewrite (row_size_shape Q nq dq 0 HQ Hnq), bind_Ok.
        rewrite (scale_loop _ S nq nk HSs), bind_Ok.
        rewrite HP, bind_Ok.
        exact (matmul_mismatch P V nq nk nv dv HPs HV Hnq Hnv Hne). }
      rewrite E. split; [tauto | discriminate].
  - assert (E : attention expf Q K V = Err DimensionMismatch).
    { unfold attention. rewrite HT, bind_Ok.
      rewrite (matmul_mismatch Q K_T nq dq dk nk HQ HKT Hnq Hdk Hne).
      reflexivity. }
    rewrite E. split; [tauto | discriminate].
Qed.

(** C2. For an input of [s] rows and [d] columns and a block whose four
    weight matrices are [d] by [d], [forward input] is
    [attention (input x W_q) (input x W_k) (input x W_v) x W_out], and the
    output has the shape of the input. *)
Theorem forward_spec (blk : TransformerBlock) (input : Matrix) (s d : nat) :
  shape (W_q blk) d d -> shape (W_k blk) d d ->
  shape (W_v blk) d d -> shape (W_out blk) d d ->
  shape input s d -> (0 < s)%nat -> (0 < d)%nat ->
  exists Q K V A O,
    matmul input (W_q blk) = Ok Q /\
    matmul input (W_k blk) = Ok K /\
    matmul input (W_v blk) = Ok V /\
    attention expf Q K V = Ok A /\
    matmul A (W_out blk) = Ok O /\
    forward expf blk input = Ok O /\
    shape O s d.
Proof.
  intros Hq Hk Hv Ho Hin Hs Hd.
  destruct (matmul_ok input (W_q blk) s d d Hin Hq Hs Hd) as (Q & HQ & HQs & _).
  destruct (matmul_ok input (W_k blk) s d d Hin Hk Hs Hd) as (K & HK & HKs & _).
  destruct (matmul_ok input (W_v blk) s d d Hin Hv Hs Hd) as (V & HV & HVs & _).
  destruct (attention_ok expf Q K V s s d d HQs HKs HVs Hs Hs Hd)
    as (_ & _ & _ & A & _ & _ & _ & _ & HA & HAs).
  destruct (matmul_ok A (W_out blk) s d d HAs Ho Hs Hd) as (O & HO & HOs & _).
  exists Q, K, V, A, O. repeat (split; [assumption |]).
  split; [| assumption].
  unfold forward. rewrite HQ, bind_Ok, HK, bind_Ok, HV, bind_Ok, HA, bind_Ok.
  exact HO.
Qed.

End AttentionErrors.

Lemma forward_spec_witness :
  exists Q K V A O,
    matmul sample_input (W_q sample_block) = Ok Q /\
    matmul sample_input (W_k sample_block) = Ok K /\
    matmul sample_input (W_v sample_block) = Ok V /\
    attention expf_edge Q K V = Ok A /\
    matmul A (W_out sample_block) = Ok O /\
    forward expf_edge sample_block sample_input = Ok O /\
    shape O 1 2.
Proof.
  apply (forward_spec expf_edge sample_block sample_input 1 2);
    [split; [reflexivity | repeat constructor]
    | split; [reflexivity | repeat constructor]
    | split; [reflexivity | repeat constructor]
    | split; [reflexivity | repeat constructor]
    | split; [reflexivity | repeat constructor]
    | lia | lia].
Defined.

(** C6. On non-empty rectangular matrices, [matmul A B] stops with the
    dimension-mismatch error exactly when [A.cols <> B.rows], and
    [attention Q K V] stops with the same error exactly when
    [Q.cols <> K.cols] or [K.rows <> V.rows]; a matrix is returned only
    when the dimensions agree, and then it has the expected shape. *)
Theorem dimension_mismatch_iff (expf : float -> float)
    (A B Q K V : Matrix) (n m m' p nq dq nk dk nv dv : nat) :
  shape A n m -> shape B m' p ->
  (0 < n)%nat -> (0 < m)%nat -> (0 < m')%nat ->
  shape Q nq dq -> shape K nk dk -> shape V nv dv ->
  (0 < nq)%nat -> (0 < dq)%nat -> (0 < nk)%nat -> (0 < dk)%nat ->
  (0 < nv)%nat ->
  (matmul A B = Err DimensionMismatch <-> m <> m') /\
  (forall C, matmul A B = Ok C -> m = m' /\ shape C n p) /\
  (attention expf Q K V = Err DimensionMismatch <-> dq <> dk \/ nk <> nv) /\
  (forall R, attention expf Q K V = Ok R ->
     dq = dk /\ nk = nv /\ shape R nq dv).
Proof.
  intros HA HB Hn Hm Hm' HQ HK HV Hnq Hdq Hnk Hdk Hnv.
  destruct (matmul_fails_iff A B n m m' p HA HB Hn Hm Hm') as [H1 H2].
  destruct (attention_fails_iff expf Q K V nq dq nk dk nv dv
              HQ HK HV Hnq Hdq Hnk Hdk Hnv) as [H3 H4].
  auto.
Qed.

Lemma dimension_mismatch_iff_witness :
  (matmul sample_A sample_B = Err DimensionMismatch <-> 2%nat <> 1%nat) /\
  (forall C, matmul sample_A sample_B = Ok C -> 2%nat = 1%nat /\ shape C 1 1) /\
  (attention expf_edge sample_Q sample_K sample_W = Err DimensionMismatch
     <-> 2%nat <> 2%nat \/ 3%nat <> 2%nat) /\
  (forall R, attention expf_edge sample_Q sample_K sample_W = Ok R ->
     2%nat = 2%nat /\ 3%nat = 2%nat /\ shape R 2 2).
Proof.
  apply (dimension_mismatch_iff expf_edge sample_A sample_B
           sample_Q sample_K sample_W 1 2 1 1 2 2 3 2 2 2);
    first [lia | split; [reflexivity | repeat constructor]].
Defined.

(** ** Loading the weights *)

Lemma floats_of_bytes_length (n : nat) (bs : list Byte.byte) :
  length (floats_of_bytes n bs) = n.
Proof.
  revert bs. induction n as [|n IH]; intros bs; simpl; [reflexivity |].
  rewrite IH. reflexivity.
Qed.

Lemma floats_of_bytes_lookup (n : nat) (bs : list Byte.byte) (j : nat) :
  (j < n)%nat -> floats_of_bytes n bs !! j = Some (file_float bs (4 * j)).
Proof.
  revert bs j. induction n as [|n IH]; intros bs j Hj; [lia |].
  destruct j as [|j].
  - reflexivity.
  - change (floats_of_bytes n (drop 4 bs) !! j = Some (file_float bs (4 * S j))).
    rewrite IH by lia. unfold file_float. rewrite drop_drop.
    replace (4 + 4 * j)%nat with (4 * S j)%nat by lia. reflexivity.
Qed.

Lemma row_bytes_zero (d : nat) :
  row_bytes (replicate d zero) = replicate (4 * d) Byte.x00.
Proof.
  induction d as [|d IH]; [reflexivity |].
  replace (4 * S d)%nat with (4 + 4 * d)%nat by lia.
  change (row_bytes (replicate (S d) zero))
    with (le_bytes 4 (to_bits zero) ++ row_bytes (replicate d zero)).
  rewrite IH. reflexivity.
Qed.

Lemma load_row_zero (d : nat) (got : list Byte.byte) (j : nat) :
  (j < d)%nat ->
  let row' := floats_of_bytes d (overwrite (row_bytes (replicate d zero)) got) in
  ((4 * j + 4 <= length got)%nat -> row' !! j = Some (file_float got (4 * j))) /\
  ((length got <= 4 * j)%nat -> row' !! j = Some zero).
Proof.
  intros Hj row'. subst row'.
  rewrite floats_of_bytes_lookup by assumption.
  unfold file_float, overwrite. rewrite row_bytes_zero, drop_replicate.
  split; intros H.
  - rewrite drop_app_le by lia.
    rewrite take_app_le by (rewrite length_drop; lia). reflexivity.
  - rewrite drop_app_ge by lia. rewrite drop_replicate, take_replicate.
    replace (4 `min` (4 * d - length got - (4 * j - length got)))%nat
      with 4%nat by lia.
    reflexivity.
Qed.

Lemma entry_insert_row (M : Matrix) (i i' j : nat) (row : list float) :
  (i < length M)%nat ->
  entry (<[i := row]> M) i' j =
    if decide (i' = i) then default zero (row !! j) else entry M i' j.
Proof.
  intros Hi. unfold entry, get. destruct (decide (i' = i)) as [-> | Hne].
  - rewrite list_lookup_insert_eq by assumption.
    destruct (row !! j); reflexivity.
  - rewrite list_lookup_insert_ne by congruence. reflexivity.
Qed.

Lemma file_float_window (rest : list Byte.byte) (a n o : nat) :
  (o + 4 <= n)%nat ->
  file_float (take n (drop a rest)) o = file_float rest (a + o).
Proof.
  intros H. unfold file_float.
  rewrite skipn_firstn_comm, take_take, drop_drop.
  replace (4 `min` (n - o))%nat with 4%nat by lia. reflexivity.
Qed.

Lemma loadMatrix_zero (f : FILE) (d : nat) :
  (0 < d)%nat ->
  let rest := drop (position f) (content f) in
  exists M f',
    loadMatrix f (alloc d d zero) = Ok (M, f') /\
    shape M d d /\
    content f' = content f /\
    closed f' = closed f /\
    position f' = (position f + length rest `min` (4 * d * d))%nat /\
    forall i j, (i < d)%nat -> (j < d)%nat ->
      ((4 * (i * d + j) + 4 <= length rest)%nat ->
         entry M i j = file_float rest (4 * (i * d + j))) /\
      ((length rest <= 4 * (i * d + j))%nat -> entry M i j = zero).
Proof.
  intros Hd rest.
  pose (Inv := fun (i : nat) (st : Matrix * FILE) =>
    shape st.1 d d /\
    content st.2 = content f /\
    closed st.2 = closed f /\
    position st.2 = (position f + length rest `min` (4 * d * i))%nat /\
    (forall i', (i <= i' < d)%nat -> st.1 !! i' = Some (replicate d zero)) /\
    forall i' j, (i' < i)%nat -> (j < d)%nat ->
      ((4 * (i' * d + j) + 4 <= length rest)%nat ->
         entry st.1 i' j = file_float rest (4 * (i' * d + j))) /\
      ((length rest <= 4 * (i' * d + j))%nat -> entry st.1 i' j = zero)).
  destruct (for_loop_inv Inv d
    (fun i (st : Matrix * FILE) =>
      match st.1 !! i with
      | None => Err OutOfRange
      | Some row =>
          let '(got, f') := fread 4 d st.2 in
          if decide (length got ≤ 4 * length row)%nat
          then Ok (<[i := floats_of_bytes (length row)
                            (overwrite (row_bytes row) got)]> st.1, f')
          else Err OutOfRange
      end) (alloc d d zero, f)) as ([M f'] & Hrun & HM & Hc & Hcl & Hp & _ & Hcells);
    unfold Inv in *; clear Inv.
  - cbn [fst snd]. split; [apply alloc_shape |]. repeat (split; [reflexivity || lia |]).
    split; [| intros; lia].
    intros i' Hi'. unfold alloc. apply lookup_replicate_2. lia.
  - intros i [M f'] Hi (HM & Hc & Hcl & Hp & Hz & Hcells). cbn [fst snd] in *.
    rewrite (Hz i) by lia. unfold fread.
    set (got := take (4 * d) (drop (position f') (content f'))).
    cbv beta iota.
    assert (Hgot : got = take (4 * d) (drop (length rest `min` (4 * d * i)) rest)).
    { subst got rest. rewrite Hp, Hc, drop_drop. reflexivity. }
    assert (Hlen : length got =
              ((4 * d) `min` (length rest - length rest `min` (4 * d * i)))%nat).
    { rewrite Hgot, length_take, length_drop. reflexivity. }
    rewrite length_replicate.
    destruct (decide (length got <= 4 * d)%nat) as [_ | Hbad]; [| lia].
    eexists. split; [reflexivity |]. cbn [fst snd content closed position].
    split; [| split; [assumption | split; [assumption | split; [| split]]]].
    + destruct HM as [Hl Hf]. split; [rewrite length_insert; assumption |].
      apply Forall_insert; [assumption |]. apply floats_of_bytes_length.
    + rewrite Hp, Hlen. nia.
    + intros i' Hi'. rewrite list_lookup_insert_ne by lia. apply Hz. lia.
    + intros i' j Hi' Hj. rewrite entry_insert_row by (destruct HM; lia).
      destruct (decide (i' = i)) as [-> | Hne]; [| apply Hcells; lia].
      destruct (load_row_zero d got j Hj) as [Hin Hout].
      split; intros H.
      * rewrite Hin by (rewrite Hlen; nia). cbn [default from_option].
        rewrite Hgot, file_float_window by lia.
        unfold id. f_equal. nia.
      * rewrite Hout by (rewrite Hlen; nia). reflexivity.
  - exists M, f'. cbn [fst snd] in *. split.
    + unfold loadMatrix.
      rewrite (row_size_shape _ d d 0 (alloc_shape d d zero) Hd), bind_Ok.
      unfold alloc at 1. rewrite length_replicate. exact Hrun.
    + repeat (split; [assumption |]). intros i j Hi Hj. apply Hcells; assumption.
Qed.

Lemma loadMatrix_at (f0 fk : FILE) (d base : nat) :
  (0 < d)%nat ->
  let rest := drop (position f0) (content f0) in
  content fk = content f0 ->
  closed fk = closed f0 ->
  position fk = (position f0 + length rest `min` base)%nat ->
  exists M f',
    loadMatrix fk (alloc d d zero) = Ok (M, f') /\
    shape M d d /\
    content f' = content f0 /\
    closed f' = closed f0 /\
    position f' = (position f0 + length rest `min` (base + 4 * d * d))%nat /\
    forall i j, (i < d)%nat -> (j < d)%nat ->
      ((base + 4 * (i * d + j) + 4 <= length rest)%nat ->
         entry M i j = file_float rest (base + 4 * (i * d + j))) /\
      ((length rest <= base + 4 * (i * d + j))%nat -> entry M i j = zero).
Proof.
  intros Hd rest Hc Hcl Hp.
  destruct (loadMatrix_zero fk d Hd) as (M & f' & Hrun & HM & Hc' & Hcl' & Hp' & Hcells).
  assert (Hrest : drop (position fk) (content fk) = drop (length rest `min` base) rest).
  { subst rest. rewrite Hp, Hc, drop_drop. reflexivity. }
  rewrite Hrest in Hp', Hcells. rewrite length_drop in Hp', Hcells.
  exists M, f'. split; [assumption |]. split; [assumption |].
  split; [congruence |]. split; [congruence |]. split; [lia |].
  intros i j Hi Hj. destruct (Hcells i j Hi Hj) as [Hin Hout]. split; intros H.
  - rewrite Hin by lia. unfold file_float. rewrite drop_drop.
    replace (length rest `min` base + 4 * (i * d + j))%nat
      with (base + 4 * (i * d + j))%nat by lia.
    reflexivity.
  - apply Hout. lia.
Qed.

(** C8. Loading the weights from a stream that may end early reports no
    error.  The constructor returns a block; it consumes the bytes that are
    left, at most [16 * d_model^2]; taking the cells in the order W_q, W_k,
    W_v, W_out, row by row, a cell whose four bytes are all in the stream
    holds the float stored there, and a cell that starts at or after the
    end of the stream still holds the [0.0f] it was allocated with. *)
Theorem load_weights_partial (d_model : Z) (f : FILE) :
  (0 < d_model)%Z ->
  let d := Z.to_nat d_model in
  let rest := drop (position f) (content f) in
  exists blk f',
    TransformerBlock_new d_model f = Ok (blk, f') /\
    position f' = (position f + length rest `min` (16 * d * d))%nat /\
    closed f' = closed f /\
    forall k i j, (k < 4)%nat -> (i < d)%nat -> (j < d)%nat ->
      shape (weight blk k) d d /\
      ((4 * ((k * d + i) * d + j) + 4 <= length rest)%nat ->
         entry (weight blk k) i j = file_float rest (4 * ((k * d + i) * d + j))) /\
      ((length rest <= 4 * ((k * d + i) * d + j))%nat ->
         entry (weight blk k) i j = zero).
Proof.
  intros Hpos d rest.
  assert (Hd : (0 < d)%nat) by (subst d; lia).
  destruct (loadMatrix_at f f d 0 Hd eq_refl eq_refl)
    as (Mq & f1 & Hq & HMq & Hc1 & Hcl1 & Hp1 & Hcq);
    [fold rest; lia |]. fold rest in Hp1, Hcq.
  destruct (loadMatrix_at f f1 d (0 + 4 * d * d) Hd Hc1 Hcl1 Hp1)
    as (Mk & f2 & Hk & HMk & Hc2 & Hcl2 & Hp2 & Hck). fold rest in Hp2, Hck.
  destruct (loadMatrix_at f f2 d (0 + 4 * d * d + 4 * d * d) Hd Hc2 Hcl2 Hp2)
    as (Mv & f3 & Hv & HMv & Hc3 & Hcl3 & Hp3 & Hcv). fold rest in Hp3, Hcv.
  destruct (loadMatrix_at f f3 d (0 + 4 * d * d + 4 * d * d + 4 * d * d) Hd Hc3 Hcl3 Hp3)
    as (Mo & f4 & Ho & HMo & Hc4 & Hcl4 & Hp4 & Hco). fold rest in Hp4, Hco.
  exists {| W_q := Mq; W_k := Mk; W_v := Mv; W_out := Mo |}, f4.
  split; [| split; [| split]].
  - unfold TransformerBlock_new.
    destruct (d_model <? 0)%Z eqn:E; [apply Z.ltb_lt in E; lia |].
    fold d. rewrite Hq, bind_Ok. cbn [fst snd].
    rewrite Hk, bind_Ok. cbn [fst snd].
    rewrite Hv, bind_Ok. cbn [fst snd].
    rewrite Ho, bind_Ok. reflexivity.
  - rewrite Hp4. f_equal. f_equal. lia.
  - assumption.
  - intros k i j Hk4 Hi Hj.
    destruct k as [|[|[|[|k]]]]; [| | | | lia]; cbn [weight W_q W_k W_v W_out].
    + split; [assumption |]. destruct (Hcq i j Hi Hj) as [Hin Hout].
      split; intros H.
      * rewrite Hin by lia. f_equal; lia.
      * apply Hout. lia.
    + split; [assumption |]. destruct (Hck i j Hi Hj) as [Hin Hout].
      split; intros H.
      * rewrite Hin by lia. f_equal; lia.
      * apply Hout. lia.
    + split; [assumption |]. destruct (Hcv i j Hi Hj) as [Hin Hout].
      split; intros H.
      * rewrite Hin by lia. f_equal; lia.
      * apply Hout. lia.
    + split; [assumption |]. destruct (Hco i j Hi Hj) as [Hin Hout].
      split; intros H.
      * rewrite Hin by lia. f_equal; lia.
      * apply Hout. lia.
Qed.

Lemma load_weights_partial_witness :
  exists blk f',
    TransformerBlock_new 2 (read_header (fopen truncated_file) 0 0 0).2
      = Ok (blk, f') /\
    position f' = 18%nat /\
    entry (weight blk 0) 0 0 = one /\
    entry (weight blk 3) 1 1 = zero.
Proof.
  destruct (load_weights_partial 2 (read_header (fopen truncated_file) 0 0 0).2
              ltac:(lia)) as (blk & f' & Hrun & Hpos & _ & Hcells).
  exists blk, f'. split; [exact Hrun |]. split; [exact Hpos |]. split.
  - destruct (Hcells 0%nat 0%nat 0%nat ltac:(lia) ltac:(simpl; lia) ltac:(simpl; lia))
      as (_ & Hin & _).
    rewrite Hin by (simpl; lia). reflexivity.
  - destruct (Hcells 3%nat 1%nat 1%nat ltac:(lia) ltac:(simpl; lia) ltac:(simpl; lia))
      as (_ & _ & Hout).
    apply Hout. simpl. lia.
Defined.

Local Open Scope Z_scope.

(** ** binary32 arithmetic *)

(** *** Digits *)

Lemma digits2_pos_bounds (p : positive) :
  2 ^ (Zpos (digits2_pos p) - 1) <= Zpos p < 2 ^ Zpos (digits2_pos p).
Proof.
  induction p as [p IH | p IH |]; cbn [digits2_pos].
  - rewrite Pos2Z.inj_succ.
    replace (Z.succ (Zpos (digits2_pos p)) - 1) with (Z.succ (Zpos (digits2_pos p) - 1)) by lia.
    rewrite !Z.pow_succ_r by lia. lia.
  - rewrite Pos2Z.inj_succ.
    replace (Z.succ (Zpos (digits2_pos p)) - 1) with (Z.succ (Zpos (digits2_pos p) - 1)) by lia.
    rewrite !Z.pow_succ_r by lia. lia.
  - simpl. lia.
Qed.

Lemma Zdigits2_unique (m k : Z) :
  2 ^ (k - 1) <= m < 2 ^ k -> 0 < m -> Zdigits2 m = k.
Proof.
  intros [Hlo Hhi] Hm. destruct m as [|p|p]; try lia. cbn [Zdigits2].
  pose proof (digits2_pos_bounds p) as [Hlo' Hhi'].
  set (d := Zpos (digits2_pos p)) in *.
  assert (0 < d) by (subst d; lia).
  assert (0 < k).
  { destruct (Z_lt_le_dec 0 k); [assumption |].
    assert (2 ^ k <= 2 ^ 0) by (destruct (Z.eq_dec k 0) as [-> |];
      [lia | rewrite Z.pow_neg_r by lia; simpl; lia]).
    simpl in *. lia. }
  destruct (Z.lt_trichotomy d k) as [Hlt | [Heq | Hgt]]; [| assumption |].
  - assert (2 ^ d <= 2 ^ (k - 1)) by (apply Z.pow_le_mono_r; lia). lia.
  - assert (2 ^ k <= 2 ^ (d - 1)) by (apply Z.pow_le_mono_r; lia). lia.
Qed.

Lemma Zdigits2_le (m k : Z) :
  0 <= m -> 0 <= k -> m < 2 ^ k -> Zdigits2 m <= k.
Proof.
  intros Hm Hk Hlt. destruct m as [|p|p]; cbn [Zdigits2]; try lia.
  pose proof (digits2_pos_bounds p) as [Hlo _].
  set (d := Zpos (digits2_pos p)) in *.
  destruct (Z_le_gt_dec d k); [assumption |].
  assert (2 ^ k <= 2 ^ (d - 1)) by (apply Z.pow_le_mono_r; lia). lia.
Qed.

(** *** Shifting right, one bit at a time *)

Lemma iter_pos_nat {A : Type} (f : A -> A) (p : positive) (x : A) :
  SpecFloat.iter_pos f p x = Nat.iter (Pos.to_nat p) f x.
Proof.
  revert x. induction p as [p IH | p IH |]; intros x; cbn [SpecFloat.iter_pos].
  - rewrite !IH, Pos2Nat.inj_xI.
    replace (Datatypes.S (2 * Pos.to_nat p)) with (Pos.to_nat p + Pos.to_nat p + 1)%nat by lia.
    rewrite !Nat.iter_add. reflexivity.
  - rewrite !IH, Pos2Nat.inj_xO.
    replace (2 * Pos.to_nat p)%nat with (Pos.to_nat p + Pos.to_nat p)%nat by lia.
    rewrite Nat.iter_add. reflexivity.
  - reflexivity.
Qed.

Lemma shr_1_nonneg (m : Z) (r s : bool) :
  0 <= m ->
  shr_1 {| shr_m := m; shr_r := r; shr_s := s |} =
  {| shr_m := m / 2; shr_r := Z.odd m; shr_s := r || s |}.
Proof.
  intros Hm. destruct m as [|[p|p|]|p]; try lia; cbn [shr_1 Z.odd].
  - reflexivity.
  - f_equal. rewrite Pos2Z.inj_xI. 
    replace (2 * Zpos p + 1) with (1 + Zpos p * 2) by lia.
    rewrite Z.div_add by lia. reflexivity.
  - f_equal. rewrite Pos2Z.inj_xO.
    replace (2 * Zpos p) with (0 + Zpos p * 2) by lia.
    rewrite Z.div_add by lia. reflexivity.
  - reflexivity.
Qed.

(** *** A quotient that does not exceed one *)

Lemma shr_m_of_loc (m : Z) (l : location) : shr_m (shr_record_of_loc m l) = m.
Proof. destruct l as [|[| |]]; reflexivity. Qed.

Lemma shr_1_ceil (mrs : shr_record) (t : Z) :
  0 <= shr_m mrs -> 0 < t -> shr_ceil mrs <= 2 ^ t ->
  0 <= shr_m (shr_1 mrs) /\ shr_ceil (shr_1 mrs) <= 2 ^ (t - 1).
Proof.
  destruct mrs as [m r s]. cbn [shr_m]. intros Hm Ht Hc.
  rewrite shr_1_nonneg by assumption. unfold shr_ceil in *. cbn [shr_m shr_r shr_s] in *.
  replace t with (Z.succ (t - 1)) in Hc by lia.
  rewrite Z.pow_succ_r in Hc by lia.
  pose proof (Z.div2_odd m) as Hdiv. rewrite Z.div2_div in Hdiv.
  destruct (Z.odd m), r, s; cbn [orb Z.b2z] in *; lia.
Qed.

Lemma iter_shr_ceil (k : nat) (mrs : shr_record) (t : Z) :
  0 <= shr_m mrs -> Z.of_nat k <= t -> shr_ceil mrs <= 2 ^ t ->
  0 <= shr_m (Nat.iter k shr_1 mrs) /\
  shr_ceil (Nat.iter k shr_1 mrs) <= 2 ^ (t - Z.of_nat k).
Proof.
  intros Hm. induction k as [|k IH]; intros Hk Hc.
  - cbn [Nat.iter]. rewrite Z.sub_0_r. split; assumption.
  - cbn [Nat.iter]. destruct IH as [Hm' Hc']; [lia | assumption |].
    replace (t - Z.of_nat (S k)) with (t - Z.of_nat k - 1) by lia.
    apply shr_1_ceil; [assumption | lia | assumption].
Qed.

Lemma fexp_small (x : Z) : x <= 1 -> fexp 24 128 x <= -23.
Proof. intros H. unfold fexp, emin. lia. Qed.

Lemma shr_fexp_ceil (m e : Z) (l : location) (mrs' : shr_record) (e' : Z) :
  0 <= m -> e <= -23 -> shr_ceil (shr_record_of_loc m l) <= 2 ^ (- e) ->
  shr_fexp 24 128 m e l = (mrs', e') ->
  0 <= shr_m mrs' /\ e' <= -23 /\ shr_ceil mrs' <= 2 ^ (- e').
Proof.
  intros Hm He Hc Hrun. unfold shr_fexp, shr in Hrun.
  assert (Hdig : Zdigits2 m + e <= 1).
  { assert (Zdigits2 m <= 1 - e); [| lia].
    apply Zdigits2_le; [assumption | lia |].
    assert (m <= shr_ceil (shr_record_of_loc m l)).
    { unfold shr_ceil. rewrite shr_m_of_loc.
      destruct (shr_r _ || shr_s _); lia. }
    replace (1 - e) with (Z.succ (- e)) by lia.
    rewrite Z.pow_succ_r by lia. lia. }
  pose proof (fexp_small _ Hdig) as Hf.
  destruct (fexp 24 128 (Zdigits2 m + e) - e) as [|p|p] eqn:En.
  - injection Hrun as <- <-. rewrite shr_m_of_loc. auto.
  - injection Hrun as <- <-. rewrite iter_pos_nat.
    destruct (iter_shr_ceil (Pos.to_nat p) (shr_record_of_loc m l) (- e))
      as [Hm' Hc']; [rewrite shr_m_of_loc; assumption | lia | assumption |].
    split; [assumption |]. split; [lia |].
    replace (- (e + Zpos p)) with (- e - Z.of_nat (Pos.to_nat p)) by lia.
    assumption.
  - injection Hrun as <- <-. rewrite shr_m_of_loc. auto.
Qed.

Lemma round_nearest_even_ceil (mrs : shr_record) :
  0 <= shr_m mrs ->
  0 <= round_nearest_even (shr_m mrs) (loc_of_shr_record mrs) <= shr_ceil mrs.
Proof.
  destruct mrs as [m [|] [|]]; unfold shr_ceil;
    cbn [shr_m shr_r shr_s loc_of_shr_record round_nearest_even orb];
    intros Hm; try destruct (Z.even m); lia.
Qed.

Lemma compare_cont_Eq (p q : positive) :
  PosDef.Pos.compare_cont Eq p q = Pos.compare p q.
Proof. reflexivity. Qed.

Lemma binary_round_aux_unit (m e : Z) (l : location) :
  0 <= m -> e <= -23 -> shr_ceil (shr_record_of_loc m l) <= 2 ^ (- e) ->
  fle zero (binary_round_aux 24 128 false m e l) = true /\
  fle (binary_round_aux 24 128 false m e l) one = true.
Proof.
  intros Hm He Hc. unfold binary_round_aux.
  destruct (shr_fexp 24 128 m e l) as [mrs1 e1] eqn:E1.
  destruct (shr_fexp_ceil m e l mrs1 e1 Hm He Hc E1) as (Hm1 & He1 & Hc1).
  pose proof (round_nearest_even_ceil mrs1 Hm1) as [Hr0 Hr1].
  set (rho := round_nearest_even (shr_m mrs1) (loc_of_shr_record mrs1)) in *.
  destruct (shr_fexp 24 128 rho e1 loc_Exact) as [mrs2 e2] eqn:E2.
  destruct (shr_fexp_ceil rho e1 loc_Exact mrs2 e2 Hr0 He1) as (Hm2 & He2 & Hc2);
    [unfold shr_ceil; cbn; lia | exact E2 |].
  assert (Hle : shr_m mrs2 <= 2 ^ (- e2)).
  { unfold shr_ceil in Hc2. destruct (shr_r mrs2 || shr_s mrs2); lia. }
  destruct (shr_m mrs2) as [|p|p] eqn:Em; [split; reflexivity | | lia].
  destruct (e2 <=? 128 - 24) eqn:El; [| apply Z.leb_gt in El; lia].
  split; [reflexivity |].
  unfold fle, one, SFleb, SFcompare.
  destruct (Z.compare_spec e2 (-23)) as [-> | Hlt | Hgt]; [| reflexivity | lia].
  change (2 ^ (- -23)) with 8388608 in Hle.
  rewrite compare_cont_Eq.
  destruct (Pos.compare_spec p 8388608); [reflexivity | reflexivity | lia].
Qed.

Lemma shr_ceil_of_loc (q : Z) (l : location) :
  shr_ceil (shr_record_of_loc q l) =
  q + match l with loc_Exact => 0 | loc_Inexact _ => 1 end.
Proof. destruct l as [|[| |]]; reflexivity. Qed.

Lemma new_location_cases (n r : Z) :
  (r = 0 /\ new_location n r = loc_Exact) \/
  (r <> 0 /\ exists c, new_location n r = loc_Inexact c).
Proof.
  unfold new_location.
  destruct (Z.even n); unfold new_location_even, new_location_odd;
    destruct (Z.eqb_spec r 0) as [-> | Hne];
    try (left; split; reflexivity);
    right; (split; [assumption | eexists; reflexivity]).
Qed.

Lemma fdiv_unit (mx my : positive) (ex ey b : Z) :
  0 <= ex + b -> 0 <= ey + b ->
  Zpos mx * 2 ^ (ex + b) <= Zpos my * 2 ^ (ey + b) ->
  fle zero (fdiv (S754_finite false mx ex) (S754_finite false my ey)) = true /\
  fle (fdiv (S754_finite false mx ex) (S754_finite false my ey)) one = true.
Proof.
  intros Hex Hey Hle. unfold fdiv, SFdiv. cbn [xorb].
  destruct (SFdiv_core_binary prec emax (Zpos mx) ex (Zpos my) ey)
    as [[mz ez] lz] eqn:E.
  unfold SFdiv_core_binary, prec, emax in E. cbn [Zdigits2] in E.
  pose proof (digits2_pos_bounds mx) as [Hx _].
  pose proof (digits2_pos_bounds my) as [_ Hy].
  set (d1 := Zpos (digits2_pos mx)) in *.
  set (d2 := Zpos (digits2_pos my)) in *.
  assert (Hd1 : 0 < d1) by (subst d1; lia).
  assert (Hd2 : 0 < d2) by (subst d2; lia).
  assert (Hdig : d1 + ex - (d2 + ey) <= 1).
  { assert (2 ^ (d1 - 1 + (ex + b)) < 2 ^ (d2 + (ey + b))).
    { rewrite (Z.pow_add_r 2 (d1 - 1) (ex + b)), (Z.pow_add_r 2 d2 (ey + b)) by lia.
      assert (0 < 2 ^ (ex + b)) by (apply Z.pow_pos_nonneg; lia).
      assert (0 < 2 ^ (ey + b)) by (apply Z.pow_pos_nonneg; lia).
      assert (2 ^ (d1 - 1) * 2 ^ (ex + b) <= Zpos mx * 2 ^ (ex + b))
        by (apply Z.mul_le_mono_nonneg_r; lia).
      assert (Zpos my * 2 ^ (ey + b) < 2 ^ d2 * 2 ^ (ey + b))
        by (apply Z.mul_lt_mono_pos_r; lia).
      lia. }
    apply Z.pow_lt_mono_r_iff in H; lia. }
  pose proof (fexp_small _ Hdig) as Hf.
  set (e' := Z.min (fexp 24 128 (d1 + ex - (d2 + ey))) (ex - ey)) in *.
  assert (He' : e' <= -23) by (subst e'; lia).
  assert (Hs : 0 <= ex - ey - e') by (subst e'; lia).
  set (m' := match ex - ey - e' with
             | 0 => Zpos mx
             | Zpos _ => Z.shiftl (Zpos mx) (ex - ey - e')
             | Zneg _ => 0
             end) in *.
  assert (Hm' : m' = Zpos mx * 2 ^ (ex - ey - e')).
  { subst m'. destruct (ex - ey - e') as [|p|p] eqn:Es; [simpl; lia | | lia].
    rewrite Z.shiftl_mul_pow2 by lia. reflexivity. }
  destruct (Z.div_eucl m' (Zpos my)) as [q r] eqn:Ed.
  injection E as <- <- <-.
  assert (Hq : q = m' / Zpos my) by (unfold Z.div; rewrite Ed; reflexivity).
  assert (Hr : r = m' mod Zpos my) by (unfold Z.modulo; rewrite Ed; reflexivity).
  pose proof (Z.div_mod m' (Zpos my) ltac:(lia)) as Hdm.
  pose proof (Z.mod_pos_bound m' (Zpos my) ltac:(lia)) as Hmb.
  rewrite <- Hq, <- Hr in Hdm. rewrite <- Hr in Hmb.
  assert (Hbound : m' <= Zpos my * 2 ^ (- e')).
  { rewrite Hm'.
    assert (Hpos : 0 < 2 ^ (ey + b)) by (apply Z.pow_pos_nonneg; lia).
    apply (Z.mul_le_mono_pos_r _ _ (2 ^ (ey + b)) Hpos).
    assert (E1 : 2 ^ (ex - ey - e') * 2 ^ (ey + b) = 2 ^ (ex + b) * 2 ^ (- e')).
    { rewrite <- (Z.pow_add_r 2 (ex - ey - e') (ey + b)),
        <- (Z.pow_add_r 2 (ex + b) (- e')) by lia.
      f_equal. lia. }
    assert (0 < 2 ^ (- e')) by (apply Z.pow_pos_nonneg; lia).
    rewrite <- Z.mul_assoc, E1. nia. }
  assert (Hpow : 0 < 2 ^ (- e')) by (apply Z.pow_pos_nonneg; lia).
  assert (Hq0 : 0 <= q).
  { rewrite Hq. apply Z.div_pos; [| lia]. rewrite Hm'.
    apply Z.mul_nonneg_nonneg; [lia | apply Z.pow_nonneg; lia]. }
  apply binary_round_aux_unit; [assumption | assumption |].
  rewrite shr_ceil_of_loc.
  destruct (new_location_cases (Zpos my) r) as [[Hr0 ->] | [Hr0 [c ->]]]; nia.
Qed.

Lemma shr_1_loc (r j : Z) (mrs : shr_record) :
  0 <= j -> shr_loc r j mrs -> shr_loc r (j + 1) (shr_1 mrs).
Proof.
  destruct mrs as [m b s]. unfold shr_loc. cbn [shr_m shr_r shr_s].
  intros Hj [Hm H]. rewrite shr_1_nonneg by assumption.
  cbn [shr_m shr_r shr_s].
  rewrite Z.pow_add_r, Z.pow_1_r by lia.
  assert (HP : 0 < 2 ^ j) by (apply Z.pow_pos_nonneg; lia).
  pose proof (Z.div2_odd m) as Hdiv. rewrite Z.div2_div in Hdiv.
  set (m' := m / 2) in *. set (P := 2 ^ j) in *.
  split; [subst m'; apply Z.div_pos; lia |].
  destruct (Z.odd m), b, s; cbn [orb Z.b2z] in *; nia.
Qed.

Lemma iter_shr_loc (k : nat) (r j : Z) (mrs : shr_record) :
  0 <= j -> shr_loc r j mrs ->
  shr_loc r (j + Z.of_nat k) (Nat.iter k shr_1 mrs).
Proof.
  intros Hj H. induction k as [|k IH].
  - cbn [Nat.iter]. rewrite Z.add_0_r. assumption.
  - cbn [Nat.iter]. replace (j + Z.of_nat (S k)) with (j + Z.of_nat k + 1) by lia.
    apply shr_1_loc; [lia | assumption].
Qed.

Lemma shr_loc_quotient (r n : Z) (mrs : shr_record) :
  0 <= n -> shr_loc r n mrs ->
  shr_m mrs * 2 ^ n <= r < (shr_m mrs + 1) * 2 ^ n.
Proof.
  intros Hn [Hm H].
  assert (HP : 0 < 2 ^ n) by (apply Z.pow_pos_nonneg; lia).
  destruct (shr_r mrs), (shr_s mrs); cbn zeta in H; lia.
Qed.

Lemma round_loc (r n : Z) (mrs : shr_record) :
  0 <= n -> shr_loc r n mrs ->
  let rho := round_nearest_even (shr_m mrs) (loc_of_shr_record mrs) in
  shr_m mrs <= rho <= shr_m mrs + 1 /\
  - 2 ^ n <= 2 * (rho * 2 ^ n - r) <= 2 ^ n.
Proof.
  intros Hn [Hm H].
  assert (HP : 0 < 2 ^ n) by (apply Z.pow_pos_nonneg; lia).
  destruct mrs as [m [|] [|]];
    cbn [shr_m shr_r shr_s loc_of_shr_record round_nearest_even] in *;
    try destruct (Z.even m); cbn zeta in *; lia.
Qed.

Lemma binary_round_aux_exact (m : positive) (e : Z) :
  2 ^ 23 <= Zpos m < 2 ^ 24 -> -149 <= e <= 104 ->
  binary_round_aux 24 128 false (Zpos m) e loc_Exact = S754_finite false m e.
Proof.
  intros Hm He.
  assert (Hd : Zdigits2 (Zpos m) = 24) by (apply Zdigits2_unique; [exact Hm | lia]).
  assert (Hs : shr_fexp 24 128 (Zpos m) e loc_Exact =
               ({| shr_m := Zpos m; shr_r := false; shr_s := false |}, e)).
  { unfold shr_fexp. rewrite Hd. unfold fexp, emin.
    replace (Z.max (24 + e - 24) (3 - 128 - 24) - e) with 0 by lia.
    reflexivity. }
  unfold binary_round_aux. rewrite Hs.
  cbn [shr_m loc_of_shr_record round_nearest_even]. rewrite Hs. cbn [shr_m].
  destruct (Z.leb_spec e (128 - 24)); [reflexivity | lia].
Qed.

Lemma pos_iter_xO (p k : positive) :
  Zpos (Pos.iter xO p k) = Zpos p * 2 ^ Zpos k.
Proof.
  revert p. induction k as [|k IH] using Pos.peano_ind; intros p.
  - cbn [Pos.iter]. rewrite Z.pow_1_r. lia.
  - rewrite Pos.iter_succ, Pos2Z.inj_xO, IH, Pos2Z.inj_succ, Z.pow_succ_r by lia.
    lia.
Qed.

Lemma shr_fexp_exact (m e : Z) :
  2 ^ 23 <= m < 2 ^ 24 -> -149 <= e ->
  shr_fexp 24 128 m e loc_Exact =
  ({| shr_m := m; shr_r := false; shr_s := false |}, e).
Proof.
  intros Hm He.
  assert (Hd : Zdigits2 m = 24) by (apply Zdigits2_unique; [exact Hm | lia]).
  unfold shr_fexp. rewrite Hd. unfold fexp, emin.
  replace (Z.max (24 + e - 24) (3 - 128 - 24) - e) with 0 by lia.
  reflexivity.
Qed.

Lemma shr_fexp_carry (e : Z) :
  -149 <= e ->
  shr_fexp 24 128 16777216 e loc_Exact =
  ({| shr_m := 8388608; shr_r := false; shr_s := false |}, e + 1).
Proof.
  intros He. unfold shr_fexp. change (Zdigits2 16777216) with 25.
  unfold fexp, emin.
  replace (Z.max (25 + e - 24) (3 - 128 - 24) - e) with 1 by lia.
  reflexivity.
Qed.

Lemma of_Z_pos (r : Z) : 0 < r < 2 ^ 31 -> of_Z_spec r (of_Z r).
Proof.
  intros [Hr0 Hr1]. destruct r as [|p|p]; try lia.
  unfold of_Z, binary_normalize, binary_round, prec, emax.
  pose proof (digits2_pos_bounds p) as [Hlo Hhi].
  pose proof (Zdigits2_le (Zpos p) 31 ltac:(lia) ltac:(lia) Hr1) as Hd31.
  cbn [Zdigits2] in Hd31.
  assert (Hd1 : 1 <= Zpos (digits2_pos p)) by lia.
  remember (Zpos (digits2_pos p)) as d eqn:Hdeq.
  assert (Hf : fexp 24 128 (d + 0) = d - 24) by (unfold fexp, emin; lia).
  rewrite Hf. unfold shl_align.
  destruct (d - 24 - 0) as [|k|k] eqn:Ek.
  - (* exactly 24 digits *)
    assert (Hd24 : d = 24) by lia. rewrite Hd24 in Hlo, Hhi.
    rewrite binary_round_aux_exact by (simpl in *; lia).
    exists p, 0, (Zpos p), 0. simpl in *. repeat split; lia.
  - (* more than 24 digits: the low bits are rounded away *)
    set (n := Zpos k) in *.
    assert (Hn : 1 <= n <= 7) by lia.
    assert (Hdn : d = n + 24) by lia.
    unfold binary_round_aux.
    assert (Hs1 : shr_fexp 24 128 (Zpos p) 0 loc_Exact =
                  (Nat.iter (Pos.to_nat k) shr_1
                     {| shr_m := Zpos p; shr_r := false; shr_s := false |}, n)).
    { unfold shr_fexp. cbn [Zdigits2]. rewrite <- Hdeq, Hf.
      replace (d - 24 - 0) with (Zpos k) by lia.
      unfold shr. rewrite iter_pos_nat. reflexivity. }
    rewrite Hs1.
    assert (Hloc : shr_loc (Zpos p) n
              (Nat.iter (Pos.to_nat k) shr_1
                 {| shr_m := Zpos p; shr_r := false; shr_s := false |})).
    { replace n with (0 + Z.of_nat (Pos.to_nat k)) by lia.
      apply iter_shr_loc; [lia |].
      split; cbn [shr_m shr_r shr_s]; lia. }
    set (mrs := Nat.iter (Pos.to_nat k) shr_1
                 {| shr_m := Zpos p; shr_r := false; shr_s := false |}) in *.
    assert (Hn0 : 0 <= n) by lia.
    pose proof (shr_loc_quotient _ _ _ Hn0 Hloc) as Hq.
    pose proof (round_loc _ _ _ Hn0 Hloc) as [Hrho Herr].
    set (rho := round_nearest_even (shr_m mrs) (loc_of_shr_record mrs)) in *.
    set (q := shr_m mrs) in *.
    assert (HP : 0 < 2 ^ n) by (apply Z.pow_pos_nonneg; lia).
    assert (Hlo' : 2 ^ 23 * 2 ^ n <= Zpos p).
    { rewrite <- Z.pow_add_r by lia. replace (23 + n) with (d - 1) by lia. exact Hlo. }
    assert (Hhi' : Zpos p < 2 ^ 24 * 2 ^ n).
    { rewrite <- Z.pow_add_r by lia. replace (24 + n) with d by lia. exact Hhi. }
    assert (Hqb : 2 ^ 23 <= q < 2 ^ 24).
    { assert (2 ^ 23 < q + 1) by (apply (Z.mul_lt_mono_pos_r (2 ^ n)); lia).
      assert (q < 2 ^ 24) by (apply (Z.mul_lt_mono_pos_r (2 ^ n)); lia).
      lia. }
    assert (Hrange : 2 ^ (n + 23) <= Zpos p < 2 ^ (n + 24)).
    { replace (n + 23) with (d - 1) by lia. replace (n + 24) with d by lia. lia. }
    destruct (Z.eq_dec rho 16777216) as [Hcarry | Hnocarry].
    + rewrite Hcarry, shr_fexp_carry by lia. cbn [shr_m].
      destruct (Z.leb_spec (n + 1) (128 - 24)); [| lia].
      exists 8388608%positive, (n + 1), (rho * 2 ^ n), n.
      split; [reflexivity |]. split; [lia |]. split.
      { rewrite Hcarry. replace (n + 1 + 23) with (24 + n) by lia.
        rewrite Z.pow_add_r by lia. lia. }
      split; [lia |]. split; [lia |]. intros _.
      split; [exact Hrange |]. split; [exists rho; reflexivity | exact Herr].
    + assert (Hrb : 2 ^ 23 <= rho < 2 ^ 24) by (change (2 ^ 24) with 16777216 in *; lia).
      rewrite shr_fexp_exact by (assumption || lia). cbn [shr_m].
      destruct rho as [|pm|pm] eqn:Erho; [simpl in Hrb; lia | | lia].
      destruct (Z.leb_spec n (128 - 24)); [| lia].
      exists pm, n, (Zpos pm * 2 ^ n), n.
      split; [reflexivity |]. split; [lia |]. split.
      { rewrite Z.pow_add_r by lia. lia. }
      split; [lia |]. split; [lia |]. intros _.
      split; [exact Hrange |]. split; [exists (Zpos pm); reflexivity | exact Herr].
  - (* fewer than 24 digits: the significand is shifted left, exactly *)
    assert (Hk : Zpos k = 24 - d) by lia.
    assert (Hm : Zpos (Pos.iter xO p k) = Zpos p * 2 ^ (24 - d))
      by (rewrite pos_iter_xO, Hk; reflexivity).
    assert (HP : 0 < 2 ^ (24 - d)) by (apply Z.pow_pos_nonneg; lia).
    assert (E23 : 2 ^ (d - 1) * 2 ^ (24 - d) = 2 ^ 23).
    { rewrite <- Z.pow_add_r by lia. f_equal. lia. }
    assert (E24 : 2 ^ d * 2 ^ (24 - d) = 2 ^ 24).
    { rewrite <- Z.pow_add_r by lia. f_equal. lia. }
    rewrite binary_round_aux_exact by (try rewrite Hm; nia).
    exists (Pos.iter xO p k), (d - 24), (Zpos p), 0.
    split; [reflexivity |]. split; [lia |]. split.
    { rewrite Hm. replace (d - 24 + 23) with (d - 1) by lia.
      rewrite <- E23. ring. }
    split; [lia |]. split; [| lia]. intros _. split; [reflexivity |].
    assert (2 ^ d <= 2 ^ 24) by (apply Z.pow_le_mono_r; lia). lia.
Qed.

Lemma of_Z_spec_monotone (r1 r2 : Z) (m1 m2 : positive) (e1 e2 : Z) :
  of_Z_spec r1 (S754_finite false m1 e1) ->
  of_Z_spec r2 (S754_finite false m2 e2) ->
  r1 < r2 ->
  Zpos m1 * 2 ^ (e1 + 23) <= Zpos m2 * 2 ^ (e2 + 23).
Proof.
  intros (m1' & e1' & v1 & n1 & E1 & He1 & Hv1 & Hn1 & Hz1 & Hp1)
         (m2' & e2' & v2 & n2 & E2 & He2 & Hv2 & Hn2 & Hz2 & Hp2) Hlt.
  injection E1 as <- <-. injection E2 as <- <-.
  rewrite Hv1, Hv2. apply Z.mul_le_mono_nonneg_r; [lia |].
  clear Hv1 Hv2 He1 He2.
  split_small n1; split_small n2; use_spec Hz1 Hp1; use_spec Hz2 Hp2;
    simpl in *; lia.
Qed.

Lemma rand_ratio_unit (r R : Z) :
  0 <= r <= R -> 0 < R < 2 ^ 31 ->
  fle zero (fdiv (of_Z r) (of_Z R)) = true /\
  fle (fdiv (of_Z r) (of_Z R)) one = true.
Proof.
  intros Hr HR.
  destruct (of_Z_pos R HR) as (mR & eR & vR & nR & ER & HeR & HvR & HnR & HzR & HpR).
  destruct (Z.eq_dec r 0) as [-> | Hr0].
  - rewrite ER. split; reflexivity.
  - destruct (of_Z_pos r ltac:(lia)) as (mr & er & vr & nr & Er & Her & Hvr & Hnr & Hzr & Hpr).
    rewrite Er, ER. apply (fdiv_unit mr mR er eR 23); [lia | lia |].
    destruct (Z.eq_dec r R) as [-> | Hne].
    + rewrite Er in ER. injection ER as <- <-. lia.
    + apply (of_Z_spec_monotone r R).
      * rewrite <- Er. apply of_Z_pos. lia.
      * rewrite <- ER. apply of_Z_pos. lia.
      * lia.
Qed.

(** ** Random initialisation *)

Section RandomRange.

Variable RAND_MAX : Z.
Variable rng : Type.
Variable rand : rng -> Z * rng.

Hypothesis RAND_MAX_int : 0 < RAND_MAX < 2 ^ 31.
Hypothesis rand_range : forall g, 0 <= (rand g).1 <= RAND_MAX.

(** C9, amended. For [rows > 0] and [cols > 0] and every state of a
    generator whose values lie between [0] and [RAND_MAX], the matrix
    [createRandomMatrix rows cols] returns has that shape and every element
    lies in the closed interval from [0.0] to [1.0]. *)
Theorem createRandomMatrix_unit (rows cols : Z) (g : rng) :
  0 < rows -> 0 < cols ->
  exists M g',
    createRandomMatrix RAND_MAX rng rand rows cols g = Ok (M, g') /\
    shape M (Z.to_nat rows) (Z.to_nat cols) /\
    forall i j, (i < Z.to_nat rows)%nat -> (j < Z.to_nat cols)%nat ->
      in_unit (entry M i j).
Proof.
  intros Hrows Hcols. unfold createRandomMatrix.
  destruct (Z.ltb_spec rows 0); [lia |].
  destruct (Z.ltb_spec cols 0); [lia |]. cbn [orb].
  set (r := Z.to_nat rows). set (c := Z.to_nat cols).
  pose (Inv := fun (_ : nat) (st : Matrix * rng) =>
    shape st.1 r c /\
    forall i j, (i < r)%nat -> (j < c)%nat -> in_unit (entry st.1 i j)).
  assert (Hstep : forall i (st : Matrix * rng), (i < r)%nat -> Inv i st ->
    exists st',
      for_loop c (fun j (st : Matrix * rng) =>
        let '(x, g') := rand st.2 in
        m' ← set st.1 i j (fdiv (of_Z x) (of_Z RAND_MAX));
        Ok (m', g')) st = Ok st' /\ Inv (S i) st').
  { intros i st Hi HI.
    apply (for_loop_inv (fun _ st => Inv i st)); [exact HI |].
    intros j [m s] Hj [Hm Hu]. cbn [fst snd] in *.
    pose proof (rand_range s) as Hs. destruct (rand s) as [x s'].
    cbn [fst] in Hs.
    destruct (set_shape m r c i j (fdiv (of_Z x) (of_Z RAND_MAX)) Hm Hi Hj)
      as (m' & Hset & Hm' & He).
    rewrite Hset, bind_Ok. eexists. split; [reflexivity |].
    split; [exact Hm' |]. cbn [fst]. intros i' j' Hi' Hj'. rewrite He.
    destruct (decide (i' = i /\ j' = j)); [| apply Hu; assumption].
    apply rand_ratio_unit; assumption. }
  destruct (for_loop_inv Inv r
    (fun i st => for_loop c (fun j (st : Matrix * rng) =>
        let '(x, g') := rand st.2 in
        m' ← set st.1 i j (fdiv (of_Z x) (of_Z RAND_MAX));
        Ok (m', g')) st) (alloc r c zero, g)) as ([M g'] & Hrun & HM & HU).
  - split; [apply alloc_shape |]. intros i j Hi Hj. cbn [fst].
    rewrite entry_alloc by assumption. split; reflexivity.
  - exact Hstep.
  - exists M, g'. split; [exact Hrun |]. split; assumption.
Qed.

End RandomRange.

Lemma iso_rand_range (next : Z) : 0 <= (iso_rand next).1 <= ISO_RAND_MAX.
Proof.
  unfold iso_rand, ISO_RAND_MAX. cbn [fst].
  pose proof (Z.mod_pos_bound
    ((next * 1103515245 + 12345) mod 4294967296 / 65536) 32768 ltac:(lia)).
  lia.
Qed.

Lemma createRandomMatrix_unit_witness :
  exists M g',
    createRandomMatrix ISO_RAND_MAX Z iso_rand 2 3 1 = Ok (M, g') /\
    shape M 2 3 /\
    forall i j, (i < 2)%nat -> (j < 3)%nat -> in_unit (entry M i j).
Proof.
  apply (createRandomMatrix_unit ISO_RAND_MAX Z iso_rand);
    [unfold ISO_RAND_MAX; simpl; lia | apply iso_rand_range | lia | lia].
Defined.

(** C9 as stated fails: from the state 2433918595 the generator returns
    [RAND_MAX], and the element is exactly [1.0], which is not below
    [1.0]. *)
Lemma createRandomMatrix_reaches_one :
  exists g',
    createRandomMatrix ISO_RAND_MAX Z iso_rand 1 1 2433918595 = Ok ([[one]], g') /\
    flt one one = false.
Proof.
  eexists. split; [vm_compute; reflexivity | reflexivity].
Qed.

(** With the [RAND_MAX] of glibc, [2^31 - 1], the element is [1.0] already
    for values below [RAND_MAX]: the conversion to [float] rounds both to
    [2^31]. *)
Lemma glibc_ratio_one :
  fdiv (of_Z 2147483584) (of_Z 2147483647) = one.
Proof. reflexivity. Qed.

(** * Further properties of the kernels, the loader and [main] *)

Local Close Scope Z_scope.

(** ** Transposition, empty matrices and the forward pass *)

(** X1. [transpose] of a non-empty rectangular matrix with [r] rows and
    [c] columns returns a matrix with [c] rows and [r] columns whose cell
    [(j, i)] is the cell [(i, j)] of the argument. *)
Theorem transpose_spec (M : Matrix) (r c : nat) :
  shape M r c -> (0 < r)%nat ->
  exists T, transpose M = Ok T /\ shape T c r /\
    forall i j, (i < r)%nat -> (j < c)%nat -> entry T j i = entry M i j.
Proof. exact (transpose_ok M r c). Qed.

Lemma transpose_spec_witness :
  exists T, transpose sample_K = Ok T /\ shape T 2 3 /\
    forall i j, (i < 3)%nat -> (j < 2)%nat -> entry T j i = entry sample_K i j.
Proof.
  apply (transpose_spec sample_K 3 2); [split; [reflexivity | repeat constructor] | lia].
Defined.

(** X2. Transposing twice gives the matrix back: for a rectangular matrix
    with at least one row and one column, both calls return and the second
    result is the first argument. *)
Theorem transpose_involutive (M : Matrix) (r c : nat) :
  shape M r c -> (0 < r)%nat -> (0 < c)%nat ->
  exists T, transpose M = Ok T /\ transpose T = Ok M.
Proof.
  intros HM Hr Hc.
  destruct (transpose_ok M r c HM Hr) as (T & HT & HTs & HTe).
  destruct (transpose_ok T c r HTs Hc) as (U & HU & HUs & HUe).
  exists T. split; [assumption |]. rewrite HU. f_equal.
  apply (matrix_ext U M r c); [assumption | assumption |].
  intros i j Hi Hj. rewrite HUe, HTe by assumption. reflexivity.
Qed.

Lemma transpose_involutive_witness :
  exists T, transpose sample_K = Ok T /\ transpose T = Ok sample_K.
Proof.
  apply (transpose_involutive sample_K 3 2); [split; [reflexivity | repeat constructor] | lia | lia].
Defined.

(** X3. None of the kernels checks for an empty matrix before it takes
    the size of row 0.  [transpose], [matmul] (for either argument) and
    [softmax] index row 0 of a matrix without rows, which is outside the
    vector; a matrix of [r] rows without columns is transposed into a
    matrix without rows, so [attention] on keys without columns makes
    [matmul] index row 0 of that empty transpose. *)
Theorem zero_size_out_of_range (expf : float -> float) (M B : Matrix) (r : nat) :
  shape M r 0 -> (0 < r)%nat ->
  transpose M = Ok [] /\
  transpose [] = Err OutOfRange /\
  matmul [] B = Err OutOfRange /\
  matmul M [] = Err OutOfRange /\
  softmax expf [] = Err OutOfRange /\
  attention expf M M B = Err OutOfRange.
Proof.
  intros HM Hr.
  assert (HT : transpose M = Ok []).
  { destruct (transpose_ok M r 0 HM Hr) as (T & HT & [HTl _] & _).
    rewrite HT. destruct T; [reflexivity | discriminate]. }
  split; [assumption |]. split; [reflexivity |]. split; [reflexivity |].
  split.
  - unfold matmul. rewrite (row_size_shape M r 0 0 HM Hr). reflexivity.
  - split; [reflexivity |]. unfold attention. rewrite HT, bind_Ok.
    unfold matmul. rewrite (row_size_shape M r 0 0 HM Hr). reflexivity.
Qed.

Lemma zero_size_out_of_range_witness :
  transpose sample_empty_rows = Ok [] /\
  attention expf_edge sample_empty_rows sample_empty_rows sample_B = Err OutOfRange.
Proof.
  assert (Hs : shape sample_empty_rows 2 0) by (split; [reflexivity | repeat constructor]).
  destruct (zero_size_out_of_range expf_edge sample_empty_rows sample_B 2 Hs
              ltac:(lia)) as (H1 & _ & _ & _ & _ & H2).
  split; assumption.
Defined.

Section Forward.
Variable expf : float -> float.

Lemma forward_shape (blk : TransformerBlock) (input : Matrix) (s d : nat) :
  shape (W_q blk) d d -> shape (W_k blk) d d ->
  shape (W_v blk) d d -> shape (W_out blk) d d ->
  shape input s d -> (0 < s)%nat -> (0 < d)%nat ->
  exists O, forward expf blk input = Ok O /\ shape O s d.
Proof.
  intros Hq Hk Hv Ho Hin Hs Hd.
  destruct (matmul_ok input (W_q blk) s d d Hin Hq Hs Hd) as (Q & HQ & HQs & _).
  destruct (matmul_ok input (W_k blk) s d d Hin Hk Hs Hd) as (K & HK & HKs & _).
  destruct (matmul_ok input (W_v blk) s d d Hin Hv Hs Hd) as (V & HV & HVs & _).
  destruct (attention_ok expf Q K V s s d d HQs HKs HVs Hs Hs Hd)
    as (_ & _ & _ & A & _ & _ & _ & _ & HA & HAs).
  destruct (matmul_ok A (W_out blk) s d d HAs Ho Hs Hd) as (O & HO & HOs & _).
  exists O. split; [| assumption].
  unfold forward. rewrite HQ, bind_Ok, HK, bind_Ok, HV, bind_Ok, HA, bind_Ok.
  exact HO.
Qed.

(** X8. With four [d x d] weight matrices, [forward] on a non-empty
    [s x c] input stops with the dimension error of [matmul] exactly when
    [c] differs from [d]; whenever it returns, [c = d] and the output has
    the shape [s x d] of the input. *)
Theorem forward_mismatch_iff (blk : TransformerBlock) (input : Matrix) (s c d : nat) :
  shape (W_q blk) d d -> shape (W_k blk) d d ->
  shape (W_v blk) d d -> shape (W_out blk) d d ->
  shape input s c -> (0 < s)%nat -> (0 < c)%nat -> (0 < d)%nat ->
  (forward expf blk input = Err DimensionMismatch <-> c <> d) /\
  (forall O, forward expf blk input = Ok O -> c = d /\ shape O s d).
Proof.
  intros Hq Hk Hv Ho Hin Hs Hc Hd.
  destruct (decide (c = d)) as [-> | Hne].
  - destruct (forward_shape blk input s d Hq Hk Hv Ho Hin Hs Hd) as (O & HO & HOs).
    rewrite HO. split.
    + split; [discriminate | congruence].
    + intros O' E. injection E as <-. auto.
  - assert (E : forward expf blk input = Err DimensionMismatch).
    { unfold forward.
      rewrite (matmul_mismatch input (W_q blk) s c d d Hin Hq Hs Hd Hne).
      reflexivity. }
    rewrite E. split; [tauto | discriminate].
Qed.
End Forward.

Lemma forward_mismatch_iff_witness :
  forward expf_edge sample_block sample_V = Err DimensionMismatch.
Proof.
  assert (HW : shape sample_W 2 2) by (split; [reflexivity | repeat constructor]).
  assert (HV : shape sample_V 3 1) by (split; [reflexivity | repeat constructor]).
  destruct (forward_mismatch_iff expf_edge sample_block sample_V 3 1 2
              HW HW HW HW HV ltac:(lia) ltac:(lia) ltac:(lia)) as [[_ H] _].
  apply H. lia.
Defined.

Lemma dummy_input_fill (d : nat) : dummy_input d = Ok (alloc 3 d half).
Proof.
  unfold dummy_input.
  pose (Outer := fun (i : nat) (R : Matrix) =>
    shape R 3 d /\
    forall i' j', entry R i' j' =
      if decide ((i' < i)%nat /\ (j' < d)%nat) then half
      else entry (alloc 3 d zero) i' j').
  destruct (for_loop_inv Outer 3
    (fun i input => for_loop d (fun j input => set input i j half) input)
    (alloc 3 d zero)) as (T & Hrun & HT & He); unfold Outer in *; clear Outer.
  - split; [apply alloc_shape |]. intros; cases.
  - intros i R Hi [HR He].
    pose (Inner := fun (j : nat) (R' : Matrix) =>
      shape R' 3 d /\
      forall i' j', entry R' i' j' =
        if decide (i' = i /\ (j' < j)%nat) then half else entry R i' j').
    destruct (for_loop_inv Inner d (fun j input => set input i j half) R)
      as (R' & Hrun & HR' & He'); unfold Inner in *; clear Inner.
    + split; [assumption |]. intros; cases.
    + intros j R' Hj [HR' He'].
      destruct (set_shape R' 3 d i j half HR' Hi Hj) as (R'' & Hset & HR'' & He'').
      exists R''. split; [assumption |]. split; [assumption |].
      intros i' j'. rewrite He'', He'. cases.
    + exists R'. split; [assumption |]. split; [assumption |].
      intros i' j'. rewrite He', He. cases.
  - rewrite Hrun. f_equal.
    apply (matrix_ext _ _ 3 d); [assumption | apply alloc_shape |].
    intros i j Hi Hj. rewrite He, (entry_alloc 3 d i j half) by assumption. cases.
Qed.

(** ** Softmax, row by row *)

Lemma shape_insert_row (M : Matrix) (r c i : nat) (row : list float) :
  shape M r c -> length row = c -> shape (<[i := row]> M) r c.
Proof.
  intros [Hl Hf] Hrow. split; [rewrite length_insert; assumption |].
  apply Forall_insert; assumption.
Qed.

Lemma entry_row (M : Matrix) (i j : nat) (row : list float) :
  M !! i = Some row -> entry M i j = default zero (row !! j).
Proof.
  intros H. unfold entry, get. rewrite H. destruct (row !! j); reflexivity.
Qed.

(** A loop that replaces every cell of row [i] by a function of it. *)
Lemma row_map_loop (g : float -> float) (P : Matrix) (r c i : nat)
    (row : list float) :
  shape P r c -> P !! i = Some row ->
  for_loop c (fun j m => x ← get m i j; set m i j (g x)) P
    = Ok (<[i := map g row]> P).
Proof.
  intros HP Hrow.
  assert (Hi : (i < r)%nat) by (destruct HP as [<- _]; eapply lookup_lt_Some; eassumption).
  assert (Hlen : length row = c) by (destruct HP as [_ Hf]; exact (Forall_lookup_1 _ _ _ _ Hf Hrow)).
  pose (Inv := fun (j : nat) (m : Matrix) =>
    shape m r c /\
    forall i' j', entry m i' j' =
      if decide (i' = i /\ (j' < j)%nat) then g (entry P i j') else entry P i' j').
  destruct (for_loop_inv Inv c
    (fun j m => x ← get m i j; set m i j (g x)) P)
    as (T & Hrun & HT & He); unfold Inv in *; clear Inv.
  - split; [assumption |]. intros; cases.
  - intros j m Hj [Hm He].
    rewrite (get_shape m r c i j), bind_Ok by assumption.
    destruct (set_shape m r c i j (g (entry m i j)) Hm Hi Hj)
      as (m' & Hset & Hm' & He').
    exists m'. split; [assumption |]. split; [assumption |].
    intros i' j'. rewrite He', !He. cases.
  - rewrite Hrun. f_equal.
    apply (matrix_ext _ _ r c);
      [assumption | apply shape_insert_row; [assumption | rewrite length_map; assumption] |].
    intros i' j' Hi' Hj'. rewrite He, entry_insert_row by (destruct HP; lia).
    rewrite (entry_row P i j' row Hrow).
    destruct (lookup_lt_is_Some_2 row j') as [v Hv]; [lia |].
    change (map g row) with (fmap (M := list) g row).
    rewrite list_lookup_fmap, Hv. cases.
Qed.

Section SoftmaxRows.
Variable expf : float -> float.

(** The first inner loop of [softmax]: exponentiate row [i] and sum it. *)
Lemma exp_sum_loop (f : float -> float) (P : Matrix) (r c i : nat)
    (row : list float) :
  shape P r c -> P !! i = Some row ->
  for_loop c (fun j (st : Matrix * float) =>
      x ← get st.1 i j;
      m' ← set st.1 i j (f x);
      y ← get m' i j;
      Ok (m', fadd st.2 y)) (P, zero)
    = Ok (<[i := map f row]> P, fold_left fadd (map f row) zero).
Proof.
  intros HP Hrow.
  assert (Hi : (i < r)%nat) by (destruct HP as [<- _]; eapply lookup_lt_Some; eassumption).
  assert (Hlen : length row = c) by (destruct HP as [_ Hf]; exact (Forall_lookup_1 _ _ _ _ Hf Hrow)).
  pose (Inv := fun (j : nat) (st : Matrix * float) =>
    shape st.1 r c /\
    (forall i' j', entry st.1 i' j' =
      if decide (i' = i /\ (j' < j)%nat) then f (entry P i j') else entry P i' j') /\
    st.2 = fold_left fadd (map f (take j row)) zero).
  destruct (for_loop_inv Inv c
    (fun j (st : Matrix * float) =>
      x ← get st.1 i j;
      m' ← set st.1 i j (f x);
      y ← get m' i j;
      Ok (m', fadd st.2 y)) (P, zero))
    as ([T sum] & Hrun & HT & He & Hsum); unfold Inv in *; clear Inv.
  - cbn [fst snd]. split; [assumption |]. split; [intros; cases |]. reflexivity.
  - intros j [m s] Hj (Hm & He & Hs). cbn [fst snd] in *.
    rewrite (get_shape m r c i j), bind_Ok by assumption.
    destruct (set_shape m r c i j (f (entry m i j)) Hm Hi Hj)
      as (m' & Hset & Hm' & He').
    rewrite Hset, bind_Ok.
    rewrite (get_shape m' r c i j), bind_Ok by assumption.
    eexists. split; [reflexivity |]. cbn [fst snd].
    split; [assumption |]. split.
    + intros i' j'. rewrite He', !He. cases.
    + destruct (lookup_lt_is_Some_2 row j) as [v Hv]; [lia |].
      rewrite (take_S_r row j v Hv), map_app, fold_left_app, <- Hs.
      cbn [map fold_left]. f_equal. rewrite He', He.
      rewrite (entry_row P i j row Hrow), Hv. cases.
  - cbn [fst snd] in *. rewrite Hrun. f_equal. f_equal.
    + apply (matrix_ext _ _ r c);
        [assumption | apply shape_insert_row; [assumption | rewrite length_map; assumption] |].
      intros i' j' Hi' Hj'. rewrite He, entry_insert_row by (destruct HP; lia).
      rewrite (entry_row P i j' row Hrow).
      destruct (lookup_lt_is_Some_2 row j') as [v Hv]; [lia |].
      change (map f row) with (fmap (M := list) f row).
      rewrite list_lookup_fmap, Hv. cases.
    + rewrite Hsum, take_ge by lia. reflexivity.
Qed.

Lemma softmax_row_length (row : list float) :
  length (softmax_row expf row) = length row.
Proof. unfold softmax_row. rewrite !length_map. reflexivity. Qed.

Lemma softmax_rows (M : Matrix) (r c : nat) :
  shape M r c -> (0 < r)%nat ->
  softmax expf M = Ok (map (softmax_row expf) M).
Proof.
  intros HM Hr. unfold softmax.
  rewrite (row_size_shape M r c 0 HM Hr), bind_Ok.
  destruct HM as [Hl Hf]. rewrite Hl.
  pose (Inv := fun (i : nat) (P : Matrix) =>
    P = map (softmax_row expf) (take i M) ++ drop i M).
  assert (Hshape : forall i, shape (map (softmax_row expf) (take i M) ++ drop i M) r c).
  { intros i. split.
    - rewrite length_app, length_map, length_take, length_drop. lia.
    - apply Forall_app. split.
      + apply Forall_map. apply Forall_take. eapply Forall_impl; [exact Hf |].
        intros row H. simpl. rewrite softmax_row_length. exact H.
      + apply Forall_drop. exact Hf. }
  destruct (for_loop_inv Inv r
    (fun i m =>
      match m !! i with
      | None => Err OutOfRange
      | Some row =>
          let max_val := row_max row in
          st ← for_loop c (fun j (st : Matrix * float) =>
                  x ← get st.1 i j;
                  m' ← set st.1 i j (expf (fsub x max_val));
                  y ← get m' i j;
                  Ok (m', fadd st.2 y)) (m, zero);
          let sum_exp := st.2 in
          for_loop c (fun j m =>
            x ← get m i j;
            set m i j (fdiv x sum_exp)) st.1
      end) M) as (T & Hrun & HT); unfold Inv in *; clear Inv.
  - reflexivity.
  - intros i P Hi ->.
    destruct (lookup_lt_is_Some_2 M i) as [row Hrow]; [lia |].
    assert (Hlook : (map (softmax_row expf) (take i M) ++ drop i M) !! i = Some row).
    { rewrite lookup_app_r by (rewrite length_map, length_take; lia).
      rewrite length_map, length_take, lookup_drop.
      replace (i + (i - i `min` length M))%nat with i by lia. exact Hrow. }
    rewrite Hlook. cbv zeta.
    rewrite (exp_sum_loop _ _ r c i row (Hshape i) Hlook), bind_Ok. cbn [fst snd].
    assert (Hlook' : <[i := map (fun x => expf (fsub x (row_max row))) row]>
              (map (softmax_row expf) (take i M) ++ drop i M) !! i
            = Some (map (fun x => expf (fsub x (row_max row))) row)).
    { apply list_lookup_insert_eq. destruct (Hshape i) as [-> _]. assumption. }
    rewrite (row_map_loop _ _ r c i _
               (shape_insert_row _ r c i _ (Hshape i)
                  ltac:(rewrite length_map; exact (Forall_lookup_1 _ _ _ _ Hf Hrow)))
               Hlook').
    eexists. split; [reflexivity |].
    rewrite list_insert_insert_eq.
    rewrite insert_app_r_alt by (rewrite length_map, length_take; lia).
    rewrite length_map, length_take.
    replace (i - i `min` length M)%nat with 0%nat by lia.
    rewrite (drop_S M row i Hrow). cbn [insert list_insert].
    rewrite (take_S_r M i row Hrow), map_app. cbn [map].
    rewrite <- app_assoc. reflexivity.
  - rewrite Hrun, HT, take_ge, drop_ge by lia. rewrite app_nil_r. reflexivity.
Qed.

End SoftmaxRows.

(** X4. On a rectangular matrix with at least one row, the in-place
    [softmax] returns the matrix in which every row has been replaced by
    [softmax_row] of that row alone: the exponentials of the elements minus
    the row's [max_val], each divided by their sum accumulated from [0.0f]
    from left to right.  No row depends on another one. *)
Theorem softmax_by_rows (expf : float -> float) (M : Matrix) (r c : nat) :
  shape M r c -> (0 < r)%nat ->
  softmax expf M = Ok (map (softmax_row expf) M).
Proof. exact (softmax_rows expf M r c). Qed.

Lemma softmax_by_rows_witness :
  softmax expf_edge sample_Q = Ok (map (softmax_row expf_edge) sample_Q).
Proof.
  apply (softmax_by_rows expf_edge sample_Q 2 2); [split; [reflexivity | repeat constructor] | lia].
Defined.

Local Open Scope Z_scope.

(** ** The running maximum and the order of binary32 *)

Local Open Scope Z_scope.

Lemma flt_key (a b : float) :
  a <> S754_nan -> b <> S754_nan ->
  (flt a b = true <-> lex_lt (fkey a) (fkey b)).
Proof.
  intros Ha Hb. unfold flt, SFltb, SFcompare, lex_lt.
  destruct a as [[|] | [|] | | [|] ma ea]; try congruence;
  destruct b as [[|] | [|] | | [|] mb eb]; try congruence;
    cbn [fkey fst snd];
    try rewrite compare_cont_Eq;
    try (split; [discriminate | lia]);
    try (split; [lia | reflexivity]);
    destruct (Z.compare_spec ea eb); destruct (Pos.compare_spec ma mb);
    cbn [CompOpp]; split; intros H'; try discriminate; try reflexivity; lia.
Qed.

Lemma flt_nan_l (b : float) : flt S754_nan b = false.
Proof. reflexivity. Qed.

Lemma flt_nan_r (a : float) : flt a S754_nan = false.
Proof. destruct a as [[|] | [|] | | [|] ? ?]; reflexivity. Qed.

Lemma flt_not_nan (a b : float) :
  flt a b = true -> a <> S754_nan /\ b <> S754_nan.
Proof.
  intros H. split; intros ->; [rewrite flt_nan_l in H | rewrite flt_nan_r in H];
    discriminate.
Qed.

Lemma flt_trans (a b c : float) :
  flt a b = true -> flt b c = true -> flt a c = true.
Proof.
  intros Hab Hbc.
  destruct (flt_not_nan _ _ Hab) as [Ha Hb].
  destruct (flt_not_nan _ _ Hbc) as [_ Hc].
  apply flt_key in Hab; [| assumption..]. apply flt_key in Hbc; [| assumption..].
  apply flt_key; [assumption.. |]. unfold lex_lt in *. lia.
Qed.

Lemma flt_neg_trans (a b c : float) :
  b <> S754_nan -> flt a b = false -> flt b c = false -> flt a c = false.
Proof.
  intros Hb Hab Hbc.
  destruct (flt a c) eqn:Hac; [| reflexivity].
  destruct (flt_not_nan _ _ Hac) as [Ha Hc].
  apply flt_key in Hac; [| assumption..].
  assert (Hab' : ~ lex_lt (fkey a) (fkey b))
    by (intros H; apply flt_key in H; [congruence | assumption..]).
  assert (Hbc' : ~ lex_lt (fkey b) (fkey c))
    by (intros H; apply flt_key in H; [congruence | assumption..]).
  unfold lex_lt in *. lia.
Qed.

(** The search for the maximum from any starting value that is not a NaN. *)
Lemma fold_max_spec (row : list float) (acc : float) :
  acc <> S754_nan ->
  let R := fold_left (fun max_val val => if fgt val max_val then val else max_val)
                     row acc in
  R <> S754_nan /\
  flt R acc = false /\
  (forall v, In v row -> flt R v = false) /\
  (R = acc \/ In R row).
Proof.
  revert acc. induction row as [|v row IH]; intros acc Hacc; cbn [fold_left].
  - split; [assumption |]. split.
    + destruct (flt acc acc) eqn:E; [| reflexivity].
      apply flt_key in E; [| assumption..]. unfold lex_lt in E. lia.
    + split; [intros v [] | left; reflexivity].
  - change (fgt v acc) with (flt acc v).
    destruct (flt acc v) eqn:E; cbv beta iota zeta.
    + destruct (flt_not_nan _ _ E) as [_ Hv].
      destruct (IH v Hv) as (HR & HRv & Hall & Hin).
      split; [assumption |]. split.
      * destruct (flt _ acc) eqn:E'; [| reflexivity].
        rewrite (flt_trans _ _ _ E' E) in HRv. discriminate.
      * split.
        -- intros w [<- | Hw]; [assumption | apply Hall; assumption].
        -- right. destruct Hin as [-> | Hin]; [left; reflexivity | right; assumption].
    + destruct (IH acc Hacc) as (HR & HRa & Hall & Hin).
      split; [assumption |]. split; [assumption |]. split.
      * intros w [<- | Hw]; [| apply Hall; assumption].
        apply (flt_neg_trans _ acc); assumption.
      * destruct Hin as [-> | Hin]; [left; reflexivity | right; right; assumption].
Qed.

(** X5. The value [max_val] that [softmax] subtracts from a row: no
    element of the row compares greater than it; it is the starting value
    [-1e9] or an element of the row; and it is an element of the row as
    soon as one element compares greater than [-1e9]. *)
Theorem row_max_spec (row : list float) :
  (forall v, In v row -> fgt v (row_max row) = false) /\
  (row_max row = minus_1e9 \/ In (row_max row) row) /\
  ((exists v, In v row /\ fgt v minus_1e9 = true) -> In (row_max row) row).
Proof.
  destruct (fold_max_spec row minus_1e9 ltac:(discriminate)) as (_ & _ & Hall & Hin).
  fold (row_max row) in Hall, Hin.
  split; [exact Hall |]. split; [exact Hin |].
  intros (v & Hv & Hgt). destruct Hin as [E | Hin]; [| assumption].
  specialize (Hall v Hv). unfold fgt in Hgt. unfold flt in Hall.
  rewrite E in Hall. congruence.
Qed.

Lemma row_max_spec_witness : In (row_max sample_row) sample_row.
Proof.
  destruct (row_max_spec sample_row) as (_ & _ & H).
  apply H. exists two. split; [right; left; reflexivity | reflexivity].
Defined.

Lemma fsub_self (x : float) : is_finite x -> fsub x x = zero.
Proof.
  destruct x as [[|] | | | s m e]; intros H; try contradiction; try reflexivity.
  unfold fsub, SFsub. rewrite Z.sub_diag. reflexivity.
Qed.

Lemma fcompare_eq_finite (s : bool) (m : positive) (e : Z) (x : float) :
  SFcompare (S754_finite s m e) x = Some Eq -> x = S754_finite s m e.
Proof.
  unfold SFcompare.
  destruct x as [[|] | [|] | | [|] mx ex]; destruct s; try discriminate;
    rewrite compare_cont_Eq;
    destruct (Z.compare_spec e ex); destruct (Pos.compare_spec m mx);
    cbn [CompOpp]; intros Hc; try discriminate; subst; reflexivity.
Qed.

Lemma fle_not_flt (a b : float) :
  fle a b = true -> flt a b = false -> SFcompare a b = Some Eq.
Proof.
  unfold fle, flt, SFleb, SFltb.
  destruct (SFcompare a b) as [[| |] |]; intros; congruence.
Qed.

Lemma row_max_single (x : float) :
  fle minus_1e9 x = true -> row_max [x] = x.
Proof.
  intros Hle. unfold row_max. cbn [fold_left].
  change (fgt x minus_1e9) with (flt minus_1e9 x).
  destruct (flt minus_1e9 x) eqn:E; [reflexivity |].
  symmetry. apply (fcompare_eq_finite true 15625000 6).
  apply fle_not_flt; assumption.
Qed.

(** X6. With an [exp] that maps [0] to [1], [softmax] turns a matrix of
    one column whose elements are finite and not below [-1e9] into the
    column of [1.0f]: each element is its row's maximum, the shifted
    argument is [0], and [1 / (0 + 1) = 1]. *)
Theorem softmax_single_column (expf : float -> float) (M : Matrix) :
  expf zero = one -> M <> [] ->
  Forall (fun row => exists x, row = [x] /\ is_finite x /\ fle minus_1e9 x = true) M ->
  softmax expf M = Ok (map (fun _ => [one]) M).
Proof.
  intros Hexp Hne HM.
  assert (Hs : shape M (length M) 1).
  { split; [reflexivity |]. eapply Forall_impl; [exact HM |].
    intros row (x & -> & _). reflexivity. }
  rewrite (softmax_rows expf M (length M) 1 Hs)
    by (destruct M; [congruence | cbn; lia]).
  f_equal. clear Hs Hne. induction HM as [|row M (x & -> & Hfin & Hle) _ IH];
    [reflexivity |].
  cbn [map]. rewrite IH. f_equal.
  unfold softmax_row. rewrite (row_max_single x Hle). cbn [map fold_left].
  rewrite (fsub_self x Hfin), Hexp. reflexivity.
Qed.

Lemma softmax_single_column_witness :
  softmax expf_edge sample_column = Ok [[one]; [one]; [one]].
Proof.
  apply (softmax_single_column expf_edge sample_column);
    [reflexivity | discriminate |].
  repeat (apply List.Forall_cons;
          [eexists; split; [reflexivity | split; [exact I | reflexivity]] |]).
  apply List.Forall_nil.
Defined.

(** ** The draws of [createRandomMatrix] *)

Local Open Scope Z_scope.

Lemma rng_after_S {rng : Type} (rand : rng -> Z * rng) (n : nat) (g : rng) :
  rng_after rand (S n) g = (rand (rng_after rand n g)).2.
Proof. reflexivity. Qed.

Section RandomDraws.
Variable RAND_MAX : Z.
Variable rng : Type.
Variable rand : rng -> Z * rng.

Lemma createRandomMatrix_cells (rows cols : Z) (g : rng) :
  0 <= rows -> 0 <= cols ->
  let r := Z.to_nat rows in
  let c := Z.to_nat cols in
  exists M,
    createRandomMatrix RAND_MAX rng rand rows cols g
      = Ok (M, rng_after rand (r * c) g) /\
    shape M r c /\
    forall i j, (i < r)%nat -> (j < c)%nat ->
      entry M i j = fdiv (of_Z (nth_rand rand (i * c + j) g)) (of_Z RAND_MAX).
Proof.
  intros Hrows Hcols r c. unfold createRandomMatrix.
  destruct (Z.ltb_spec rows 0); [lia |].
  destruct (Z.ltb_spec cols 0); [lia |]. cbn [orb]. fold r c.
  set (F := fun k : nat => fdiv (of_Z (nth_rand rand k g)) (of_Z RAND_MAX)).
  pose (Outer := fun (i : nat) (st : Matrix * rng) =>
    shape st.1 r c /\ st.2 = rng_after rand (i * c) g /\
    forall i' j', entry st.1 i' j' =
      if decide ((i' < i)%nat /\ (j' < c)%nat) then F (i' * c + j')%nat
      else entry (alloc r c zero) i' j').
  destruct (for_loop_inv Outer r
    (fun i st => for_loop c (fun j (st : Matrix * rng) =>
        let '(x, g') := rand st.2 in
        m' ← set st.1 i j (fdiv (of_Z x) (of_Z RAND_MAX));
        Ok (m', g')) st) (alloc r c zero, g))
    as ([M g'] & Hrun & HM & Hg & He); unfold Outer in *; clear Outer.
  - cbn [fst snd]. split; [apply alloc_shape |]. split; [reflexivity |].
    intros; cases.
  - intros i [m0 g0] Hi (Hm0 & Hg0 & He0). cbn [fst snd] in *.
    pose (Inner := fun (j : nat) (st : Matrix * rng) =>
      shape st.1 r c /\ st.2 = rng_after rand (i * c + j) g /\
      forall i' j', entry st.1 i' j' =
        if decide (i' = i /\ (j' < j)%nat) then F (i * c + j')%nat
        else entry m0 i' j').
    destruct (for_loop_inv Inner c
      (fun j (st : Matrix * rng) =>
        let '(x, g') := rand st.2 in
        m' ← set st.1 i j (fdiv (of_Z x) (of_Z RAND_MAX));
        Ok (m', g')) (m0, g0))
      as ([m1 g1] & Hrun & Hm1 & Hg1 & He1); unfold Inner in *; clear Inner.
    + cbn [fst snd]. split; [assumption |].
      split; [rewrite Hg0; f_equal; lia |]. intros; cases.
    + intros j [m s] Hj (Hm & Hs & He). cbn [fst snd] in *.
      destruct (rand s) as [x s'] eqn:Er.
      destruct (set_shape m r c i j (fdiv (of_Z x) (of_Z RAND_MAX)) Hm Hi Hj)
        as (m' & Hset & Hm' & He').
      rewrite Hset, bind_Ok. eexists. split; [reflexivity |]. cbn [fst snd].
      split; [assumption |]. split.
      * replace (i * c + S j)%nat with (S (i * c + j)) by lia.
        rewrite rng_after_S, <- Hs, Er. reflexivity.
      * intros i' j'. rewrite He', He.
        repeat case_decide; destruct_and?; subst; try reflexivity; try lia.
        unfold F, nth_rand. rewrite Er. reflexivity.
    + exists (m1, g1). split; [exact Hrun |]. cbn [fst snd] in *.
      split; [assumption |]. split; [rewrite Hg1; f_equal; lia |].
      intros i' j'. rewrite He1, He0. cases.
  - cbn [fst snd] in *. exists M. rewrite Hrun, Hg. split; [reflexivity |].
    split; [assumption |]. intros i j Hi Hj. rewrite He. cases.
Qed.

End RandomDraws.

Lemma fdiv_self (s : bool) (m : positive) (e : Z) :
  fdiv (S754_finite s m e) (S754_finite s m e) = one.
Proof.
  unfold fdiv, SFdiv, SFdiv_core_binary.
  replace (Zdigits2 (Zpos m) + e - (Zdigits2 (Zpos m) + e)) with 0 by lia.
  replace (e - e) with 0 by lia.
  change (Z.min (fexp prec emax 0) 0) with (-24).
  change (0 - -24) with 24.
  assert (E : Z.div_eucl (Z.shiftl (Zpos m) 24) (Zpos m) = (16777216, 0)).
  { rewrite Z.shiftl_mul_pow2 by lia.
    pose proof (Z.div_mul (2 ^ 24) (Zpos m) ltac:(lia)) as Hq.
    pose proof (Z.mod_mul (2 ^ 24) (Zpos m) ltac:(lia)) as Hr.
    rewrite (Z.mul_comm (2 ^ 24)) in Hq, Hr.
    unfold Z.div, Z.modulo in Hq, Hr.
    destruct (Z.div_eucl (Zpos m * 2 ^ 24) (Zpos m)) as [q r].
    subst. reflexivity. }
  cbv iota.
  change (IntDef.Z.div_eucl (IntDef.Z.shiftl (Zpos m) 24) (Zpos m))
    with (Z.div_eucl (Z.shiftl (Zpos m) 24) (Zpos m)).
  rewrite E, xorb_nilpotent.
  assert (L : new_location (Zpos m) 0 = loc_Exact)
    by (unfold new_location; destruct (Z.even (Zpos m)); reflexivity).
  rewrite L. reflexivity.
Qed.

(** X9. [createRandomMatrix rows cols] with non-negative arguments
    returns a [rows x cols] matrix after exactly [rows * cols] calls of
    [rand], and the cell [(i, j)] holds the value of the call number
    [i * cols + j], converted to [float] and divided by [RAND_MAX]: the
    generator is consumed in row-major order. *)
Theorem createRandomMatrix_draw_order (RAND_MAX : Z) (rng : Type)
    (rand : rng -> Z * rng) (rows cols : Z) (g : rng) :
  0 <= rows -> 0 <= cols ->
  let r := Z.to_nat rows in
  let c := Z.to_nat cols in
  exists M,
    createRandomMatrix RAND_MAX rng rand rows cols g
      = Ok (M, rng_after rand (r * c) g) /\
    shape M r c /\
    forall i j, (i < r)%nat -> (j < c)%nat ->
      entry M i j = fdiv (of_Z (nth_rand rand (i * c + j) g)) (of_Z RAND_MAX).
Proof. exact (createRandomMatrix_cells RAND_MAX rng rand rows cols g). Qed.

Lemma createRandomMatrix_draw_order_witness :
  exists M,
    createRandomMatrix ISO_RAND_MAX Z iso_rand 2 3 1
      = Ok (M, rng_after iso_rand 6 1) /\
    shape M 2 3 /\
    forall i j, (i < 2)%nat -> (j < 3)%nat ->
      entry M i j = fdiv (of_Z (nth_rand iso_rand (i * 3 + j) 1)) (of_Z ISO_RAND_MAX).
Proof.
  apply (createRandomMatrix_draw_order ISO_RAND_MAX Z iso_rand 2 3 1); lia.
Defined.

(** X10. For [0 < RAND_MAX < 2^31], a cell of [createRandomMatrix] is
    exactly [1.0f] when its call of [rand] returned [RAND_MAX], and exactly
    [0.0f] when it returned [0]: both ends of the interval are reached. *)
Theorem createRandomMatrix_endpoints (RAND_MAX : Z) (rng : Type)
    (rand : rng -> Z * rng) (rows cols : Z) (g : rng) :
  0 < RAND_MAX < 2 ^ 31 -> 0 <= rows -> 0 <= cols ->
  exists M g',
    createRandomMatrix RAND_MAX rng rand rows cols g = Ok (M, g') /\
    forall i j, (i < Z.to_nat rows)%nat -> (j < Z.to_nat cols)%nat ->
      (nth_rand rand (i * Z.to_nat cols + j) g = RAND_MAX -> entry M i j = one) /\
      (nth_rand rand (i * Z.to_nat cols + j) g = 0 -> entry M i j = zero).
Proof.
  intros HR Hrows Hcols.
  destruct (createRandomMatrix_cells RAND_MAX rng rand rows cols g Hrows Hcols)
    as (M & Hrun & _ & He).
  exists M, (rng_after rand (Z.to_nat rows * Z.to_nat cols) g).
  split; [exact Hrun |]. intros i j Hi Hj. rewrite (He i j Hi Hj).
  destruct (of_Z_pos RAND_MAX HR) as (m & e & _ & _ & E & _).
  split; intros ->.
  - rewrite E. apply fdiv_self.
  - rewrite E. reflexivity.
Qed.

Lemma createRandomMatrix_endpoints_witness :
  exists M g',
    createRandomMatrix ISO_RAND_MAX Z iso_rand 1 1 2433918595 = Ok (M, g') /\
    forall i j, (i < 1)%nat -> (j < 1)%nat ->
      (nth_rand iso_rand (i * 1 + j) 2433918595 = ISO_RAND_MAX -> entry M i j = one) /\
      (nth_rand iso_rand (i * 1 + j) 2433918595 = 0 -> entry M i j = zero).
Proof.
  apply (createRandomMatrix_endpoints ISO_RAND_MAX Z iso_rand 1 1 2433918595);
    [unfold ISO_RAND_MAX; simpl; lia | lia | lia].
Defined.

(** ** Bit patterns *)

Local Open Scope Z_scope.

Lemma byte_of_Z_value (z : Z) : Z.of_N (Byte.to_N (byte_of_Z z)) = z mod 256.
Proof.
  pose proof (Z.mod_pos_bound z 256 ltac:(lia)) as Hb.
  unfold byte_of_Z. destruct (Byte.of_N (Z.to_N (z mod 256))) as [b |] eqn:E.
  - apply Byte.to_of_N in E. rewrite E. lia.
  - apply Byte.of_N_None_iff in E. lia.
Qed.

Lemma le_word_le_bytes (n : nat) (w : Z) :
  le_word (le_bytes n w) = w mod 2 ^ (8 * Z.of_nat n).
Proof.
  revert w. induction n as [|n IH]; intros w.
  - cbn. rewrite Z.mod_1_r. reflexivity.
  - cbn [le_bytes le_word fold_right]. fold (le_word (le_bytes n (w / 256))).
    rewrite IH, byte_of_Z_value.
    replace (8 * Z.of_nat (S n)) with (8 + 8 * Z.of_nat n) by lia.
    rewrite Z.pow_add_r by lia. change (2 ^ 8) with 256.
    rewrite Z.rem_mul_r by (try apply Z.pow_pos_nonneg; lia). reflexivity.
Qed.

(** The three fields of a binary32 bit pattern. *)
Lemma bits_fields (s : bool) (E mant : Z) :
  0 <= E < 256 -> 0 <= mant < 8388608 ->
  let w := sign_bit s + E * 8388608 + mant in
  0 <= w < 4294967296 /\
  Z.testbit w 31 = s /\
  Z.land (Z.shiftr w 23) 255 = E /\
  Z.land w 8388607 = mant.
Proof.
  intros HE Hm w.
  assert (Hs : sign_bit s = if s then 2147483648 else 0) by reflexivity.
  split; [subst w; destruct s; rewrite Hs; lia |]. split; [| split].
  - rewrite Z.testbit_odd, Z.shiftr_div_pow2 by lia. change (2 ^ 31) with 2147483648.
    assert (w / 2147483648 = if s then 1 else 0).
    { subst w. destruct s; rewrite Hs; Z.div_mod_to_equations; lia. }
    rewrite H. destruct s; reflexivity.
  - rewrite Z.shiftr_div_pow2 by lia. change 255 with (Z.ones 8).
    rewrite Z.land_ones by lia. change (2 ^ 23) with 8388608. change (2 ^ 8) with 256.
    subst w. destruct s; rewrite Hs; Z.div_mod_to_equations; lia.
  - change 8388607 with (Z.ones 23). rewrite Z.land_ones by lia.
    change (2 ^ 23) with 8388608.
    subst w. destruct s; rewrite Hs; Z.div_mod_to_equations; lia.
Qed.

Lemma valid_finite_cases (s : bool) (m : positive) (e : Z) :
  valid_float (S754_finite s m e) ->
  (Zpos m < 8388608 /\ e = -149) \/
  (8388608 <= Zpos m < 16777216 /\ -149 <= e <= 104).
Proof.
  unfold valid_float, valid_binary, bounded, canonical_mantissa, fexp, emin, prec, emax.
  intros H. apply andb_true_iff in H. destruct H as [Hc He].
  apply Z.eqb_eq in Hc. apply Z.leb_le in He.
  pose proof (digits2_pos_bounds m) as [Hlo Hhi].
  set (d := Zpos (digits2_pos m)) in *.
  assert (Hd : 0 < d) by (subst d; lia).
  destruct (Z_lt_le_dec (Zpos m) 8388608) as [Hsmall | Hbig].
  - left. split; [assumption |].
    assert (d <= 23).
    { destruct (Z_le_gt_dec d 23); [assumption |].
      assert (2 ^ 23 <= 2 ^ (d - 1)) by (apply Z.pow_le_mono_r; lia).
      change (2 ^ 23) with 8388608 in *. lia. }
    lia.
  - right.
    assert (24 <= d).
    { destruct (Z_le_gt_dec 24 d); [assumption |].
      assert (2 ^ d <= 2 ^ 23) by (apply Z.pow_le_mono_r; lia).
      change (2 ^ 23) with 8388608 in *. lia. }
    assert (d = 24) by lia.
    replace d with 24 in Hhi by lia. change (2 ^ 24) with 16777216 in Hhi. lia.
Qed.

Lemma to_bits_range (x : float) : valid_float x -> 0 <= to_bits x < 4294967296.
Proof.
  destruct x as [[|] | [|] | | s m e]; intros Hv; try (cbn; lia).
  unfold to_bits. destruct (valid_finite_cases s m e Hv) as [[Hm He] | [Hm He]].
  - destruct (Z.ltb_spec (Zpos m) 8388608); [| lia].
    destruct (bits_fields s 0 (Zpos m) ltac:(lia) ltac:(lia)) as [Hr _]. lia.
  - destruct (Z.ltb_spec (Zpos m) 8388608); [lia |].
    rewrite Z.shiftl_mul_pow2 by lia. change (2 ^ 23) with 8388608.
    destruct (bits_fields s (e + 150) (Zpos m - 8388608) ltac:(lia) ltac:(lia))
      as [Hr _]. lia.
Qed.

Lemma of_bits_to_bits (x : float) : valid_float x -> of_bits (to_bits x) = x.
Proof.
  destruct x as [[|] | [|] | | s m e]; intros Hv; try reflexivity.
  unfold to_bits. destruct (valid_finite_cases s m e Hv) as [[Hm He] | [Hm He]].
  - destruct (Z.ltb_spec (Zpos m) 8388608); [| lia].
    destruct (bits_fields s 0 (Zpos m) ltac:(lia) ltac:(lia)) as (_ & Hs & HE & HM).
    rewrite Z.mul_0_l, Z.add_0_r in Hs, HE, HM.
    unfold of_bits. rewrite Hs, HE, HM. cbn [Z.eqb]. subst e. reflexivity.
  - destruct (Z.ltb_spec (Zpos m) 8388608); [lia |].
    rewrite Z.shiftl_mul_pow2 by lia. change (2 ^ 23) with 8388608.
    destruct (bits_fields s (e + 150) (Zpos m - 8388608) ltac:(lia) ltac:(lia))
      as (_ & Hs & HE & HM).
    unfold of_bits. rewrite Hs, HE, HM.
    destruct (Z.eqb_spec (e + 150) 0); [lia |].
    destruct (Z.eqb_spec (e + 150) 255); [lia |].
    replace (Zpos m - 8388608 + 8388608) with (Zpos m) by lia.
    replace (e + 150 - 150) with e by lia. reflexivity.
Qed.

Lemma decode_encode (x : float) :
  valid_float x -> of_bits (le_word (le_bytes 4 (to_bits x))) = x.
Proof.
  intros Hv. rewrite le_word_le_bytes. change (2 ^ (8 * Z.of_nat 4)) with 4294967296.
  rewrite Z.mod_small by (apply to_bits_range; assumption).
  apply of_bits_to_bits. assumption.
Qed.

Local Close Scope Z_scope.

(** ** Loading a matrix *)

Lemma row_bytes_cons (x : float) (row : list float) :
  row_bytes (x :: row) = le_bytes 4 (to_bits x) ++ row_bytes row.
Proof. reflexivity. Qed.

Lemma row_bytes_length (row : list float) :
  length (row_bytes row) = (4 * length row)%nat.
Proof.
  induction row as [|x row IH]; [reflexivity |].
  rewrite row_bytes_cons, length_app, length_le_bytes, IH. cbn [length]. lia.
Qed.

Lemma row_bytes_app (r1 r2 : list float) :
  row_bytes (r1 ++ r2) = row_bytes r1 ++ row_bytes r2.
Proof. unfold row_bytes. apply flat_map_app. Qed.

Lemma row_bytes_chunk (row : list float) (j : nat) (x : float)
    (tail : list Byte.byte) :
  row !! j = Some x ->
  take 4 (drop (4 * j) (row_bytes row ++ tail)) = le_bytes 4 (to_bits x).
Proof.
  revert j. induction row as [|y row IH]; intros j Hj; [discriminate |].
  rewrite row_bytes_cons, <- app_assoc. destruct j as [|j].
  - injection Hj as ->. rewrite Nat.mul_0_r, drop_0.
    rewrite take_app_le by (rewrite length_le_bytes; lia).
    apply take_ge. rewrite length_le_bytes. lia.
  - rewrite drop_app_ge by (rewrite length_le_bytes; lia).
    rewrite length_le_bytes. replace (4 * S j - 4)%nat with (4 * j)%nat by lia.
    apply IH. exact Hj.
Qed.

Lemma load_row (row : list float) (got : list Byte.byte) (j : nat) :
  (j < length row)%nat ->
  let row' := floats_of_bytes (length row) (overwrite (row_bytes row) got) in
  ((4 * j + 4 <= length got)%nat -> row' !! j = Some (file_float got (4 * j))) /\
  ((length got <= 4 * j)%nat ->
     forall x, row !! j = Some x -> valid_float x -> row' !! j = Some x).
Proof.
  intros Hj row'. subst row'. rewrite floats_of_bytes_lookup by assumption.
  unfold file_float, overwrite. split.
  - intros H. rewrite drop_app_le by lia.
    rewrite take_app_le by (rewrite length_drop; lia). reflexivity.
  - intros H x Hx Hv. rewrite drop_app_ge by lia. rewrite drop_drop.
    replace (length got + (4 * j - length got))%nat with (4 * j)%nat by lia.
    pose proof (row_bytes_chunk row j x [] Hx) as Hc. rewrite app_nil_r in Hc.
    rewrite Hc, decode_encode by assumption. reflexivity.
Qed.

Lemma loadMatrix_general (f : FILE) (M : Matrix) (r c : nat) :
  shape M r c -> (0 < r)%nat ->
  let rest := drop (position f) (content f) in
  exists M' f',
    loadMatrix f M = Ok (M', f') /\
    shape M' r c /\
    content f' = content f /\
    closed f' = closed f /\
    position f' = (position f + length rest `min` (4 * r * c))%nat /\
    map fst (freads f') = replicate r (4 * c)%nat ++ map fst (freads f) /\
    forall i j, (i < r)%nat -> (j < c)%nat ->
      ((4 * (i * c + j) + 4 <= length rest)%nat ->
         entry M' i j = file_float rest (4 * (i * c + j))) /\
      ((length rest <= 4 * (i * c + j))%nat -> valid_float (entry M i j) ->
         entry M' i j = entry M i j).
Proof.
  intros HM Hr rest.
  pose (Inv := fun (i : nat) (st : Matrix * FILE) =>
    shape st.1 r c /\
    content st.2 = content f /\
    closed st.2 = closed f /\
    position st.2 = (position f + length rest `min` (4 * c * i))%nat /\
    map fst (freads st.2) = replicate i (4 * c)%nat ++ map fst (freads f) /\
    (forall i', (i <= i')%nat -> st.1 !! i' = M !! i') /\
    forall i' j, (i' < i)%nat -> (j < c)%nat ->
      ((4 * (i' * c + j) + 4 <= length rest)%nat ->
         entry st.1 i' j = file_float rest (4 * (i' * c + j))) /\
      ((length rest <= 4 * (i' * c + j))%nat -> valid_float (entry M i' j) ->
         entry st.1 i' j = entry M i' j)).
  destruct (for_loop_inv Inv r
    (fun i (st : Matrix * FILE) =>
      match st.1 !! i with
      | None => Err OutOfRange
      | Some row =>
          let '(got, f') := fread 4 c st.2 in
          if decide (length got ≤ 4 * length row)%nat
          then Ok (<[i := floats_of_bytes (length row)
                            (overwrite (row_bytes row) got)]> st.1, f')
          else Err OutOfRange
      end) (M, f))
    as ([M' f'] & Hrun & HM' & Hc & Hcl & Hp & Hlog & _ & Hcells);
    unfold Inv in *; clear Inv.
  - cbn [fst snd]. split; [assumption |]. split; [reflexivity |].
    split; [reflexivity |]. split; [lia |]. split; [reflexivity |].
    split; [reflexivity |]. intros; lia.
  - intros i [M1 f1] Hi (HM1 & Hc & Hcl & Hp & Hlog & Hz & Hcells).
    cbn [fst snd] in *.
    destruct (shape_lookup M r c i HM Hi) as (row & Hrow & Hlen).
    rewrite (Hz i) by lia. rewrite Hrow. unfold fread.
    set (got := take (4 * c) (drop (position f1) (content f1))).
    cbv beta iota.
    assert (Hgot : got = take (4 * c) (drop (length rest `min` (4 * c * i)) rest)).
    { subst got rest. rewrite Hp, Hc, drop_drop. reflexivity. }
    assert (Hgl : length got =
              ((4 * c) `min` (length rest - length rest `min` (4 * c * i)))%nat).
    { rewrite Hgot, length_take, length_drop. reflexivity. }
    rewrite Hlen.
    destruct (decide (length got <= 4 * c)%nat) as [_ | Hbad]; [| lia].
    eexists. split; [reflexivity |]. cbn [fst snd content closed position freads].
    split; [| split; [assumption | split; [assumption | split; [| split; [| split]]]]].
    + apply shape_insert_row; [assumption | apply floats_of_bytes_length].
    + rewrite Hp, Hgl. nia.
    + cbn [map fst replicate app]. rewrite Hlog.
      change (replicate (S i) (4 * c)%nat) with ((4 * c)%nat :: replicate i (4 * c)%nat).
      reflexivity.
    + intros i' Hi'. rewrite list_lookup_insert_ne by lia. apply Hz. lia.
    + intros i' j Hi' Hj. rewrite entry_insert_row by (destruct HM1; lia).
      destruct (decide (i' = i)) as [-> | Hne]; [| apply Hcells; lia].
      destruct (load_row row got j ltac:(lia)) as [Hin Hout]. rewrite Hlen in Hin, Hout.
      split.
      * intros H. rewrite Hin by (rewrite Hgl; nia). cbn [default from_option].
        unfold id. rewrite Hgot, file_float_window by lia. f_equal. nia.
      * intros H Hv. destruct (lookup_lt_is_Some_2 row j) as [x Hx]; [lia |].
        assert (Ex : entry M i j = x)
          by (rewrite (entry_row M i j row Hrow), Hx; reflexivity).
        rewrite (Hout ltac:(rewrite Hgl; nia) x Hx ltac:(rewrite <- Ex; exact Hv)).
        rewrite Ex. reflexivity.
  - exists M', f'. cbn [fst snd] in *. split.
    + unfold loadMatrix. rewrite (row_size_shape M r c 0 HM Hr), bind_Ok.
      destruct HM as [-> _]. exact Hrun.
    + split; [assumption |]. split; [assumption |]. split; [assumption |].
      split; [rewrite Hp; f_equal; f_equal; lia |]. split; [assumption |].
      intros i j Hi Hj. apply Hcells; assumption.
Qed.

Lemma concat_lookup (W : Matrix) (r c i j : nat) :
  shape W r c -> (i < r)%nat -> (j < c)%nat ->
  concat W !! (i * c + j)%nat = Some (entry W i j).
Proof.
  revert r i. induction W as [|row W IH]; intros r i [Hl Hf] Hi Hj.
  - cbn in Hl. lia.
  - apply Forall_cons in Hf. destruct Hf as [Hrow Hf]. cbn [concat].
    destruct i as [|i].
    + rewrite lookup_app_l by lia. cbn [Nat.mul Nat.add].
      destruct (lookup_lt_is_Some_2 row j) as [x Hx]; [lia |].
      rewrite Hx. unfold entry, get. cbn [lookup list_lookup]. 
      change (row !! j) with (@lookup nat float (list float) _ j row).
      rewrite Hx. reflexivity.
    + rewrite lookup_app_r by (cbn; nia).
      replace (S i * c + j - length row)%nat with (i * c + j)%nat by (cbn; nia).
      cbn in Hl. rewrite (IH (length W) i) by (try split; try assumption; lia).
      reflexivity.
Qed.

Lemma concat_length (W : Matrix) (r c : nat) :
  shape W r c -> length (concat W) = (r * c)%nat.
Proof.
  revert r. induction W as [|row W IH]; intros r [Hl Hf]; cbn in Hl; subst r.
  - reflexivity.
  - apply Forall_cons in Hf. destruct Hf as [Hrow Hf]. cbn [concat].
    rewrite length_app, (IH (length W)) by (split; [reflexivity | assumption]).
    cbn [length]. lia.
Qed.

Lemma matrix_bytes_length (W : Matrix) (r c : nat) :
  shape W r c -> length (matrix_bytes W) = (4 * r * c)%nat.
Proof.
  intros HW. unfold matrix_bytes. rewrite row_bytes_length, (concat_length W r c HW).
  lia.
Qed.

Lemma valid_entry (W : Matrix) (r c i j : nat) :
  shape W r c -> valid_matrix W -> (i < r)%nat -> (j < c)%nat ->
  valid_float (entry W i j).
Proof.
  intros HW HV Hi Hj.
  destruct (entry_lookup W r c i j HW Hi Hj) as (row & Hrow & Hx).
  pose proof (Forall_lookup_1 _ _ _ _ HV Hrow) as Hr.
  exact (Forall_lookup_1 _ _ _ _ Hr Hx).
Qed.

Lemma loadMatrix_decode (f : FILE) (M W : Matrix) (r c : nat)
    (tail : list Byte.byte) :
  shape M r c -> shape W r c -> valid_matrix W -> (0 < r)%nat ->
  drop (position f) (content f) = matrix_bytes W ++ tail ->
  exists f',
    loadMatrix f M = Ok (W, f') /\
    content f' = content f /\
    closed f' = closed f /\
    position f' = (position f + 4 * r * c)%nat /\
    drop (position f') (content f') = tail.
Proof.
  intros HM HW HV Hr Hrest.
  destruct (loadMatrix_general f M r c HM Hr)
    as (M' & f' & Hrun & HM' & Hc & Hcl & Hp & _ & Hcells).
  rewrite Hrest in Hp, Hcells.
  rewrite length_app, (matrix_bytes_length W r c HW) in Hp, Hcells.
  assert (Hp' : position f' = (position f + 4 * r * c)%nat) by lia.
  exists f'. split; [| split; [assumption | split; [assumption | split; [assumption |]]]].
  - rewrite Hrun. f_equal. f_equal.
    apply (matrix_ext M' W r c); [assumption | assumption |].
    intros i j Hi Hj. destruct (Hcells i j Hi Hj) as [Hin _].
    rewrite Hin by nia. unfold file_float, matrix_bytes.
    rewrite (row_bytes_chunk (concat W) (i * c + j) (entry W i j) tail
               (concat_lookup W r c i j HW Hi Hj)).
    apply decode_encode. exact (valid_entry W r c i j HW HV Hi Hj).
  - rewrite Hp', Hc, <- drop_drop, Hrest.
    rewrite drop_app_length'; [reflexivity |].
    symmetry. apply (matrix_bytes_length W r c HW).
Qed.

(** X11. [loadMatrix] on a matrix with [r > 0] rows of [c] columns
    always returns: it issues exactly [r] calls of [fread], each asking for
    [4 * c] bytes, advances the stream by the smaller of [4 * r * c] and
    the bytes that were left, neither closes the stream nor changes its
    bytes, keeps the shape of the matrix, and, when [4 * r * c] bytes were
    left, fills the cell [(i, j)] with the float at offset
    [4 * (i * c + j)] from the read position. *)
Theorem loadMatrix_stream_discipline (f : FILE) (M : Matrix) (r c : nat) :
  shape M r c -> (0 < r)%nat ->
  let rest := drop (position f) (content f) in
  exists M' f',
    loadMatrix f M = Ok (M', f') /\
    shape M' r c /\
    content f' = content f /\
    closed f' = closed f /\
    position f' = (position f + length rest `min` (4 * r * c))%nat /\
    map fst (freads f') = replicate r (4 * c)%nat ++ map fst (freads f) /\
    ((4 * r * c <= length rest)%nat ->
       forall i j, (i < r)%nat -> (j < c)%nat ->
         entry M' i j = file_float rest (4 * (i * c + j))).
Proof.
  intros HM Hr rest.
  destruct (loadMatrix_general f M r c HM Hr)
    as (M' & f' & Hrun & HM' & Hc & Hcl & Hp & Hlog & Hcells).
  exists M', f'. repeat (split; [assumption |]).
  intros Hfull i j Hi Hj. destruct (Hcells i j Hi Hj) as [Hin _].
  apply Hin. fold rest. nia.
Qed.

Lemma loadMatrix_stream_discipline_witness :
  exists M' f',
    loadMatrix sample_weights_stream (alloc 2 2 zero) = Ok (M', f') /\
    position f' = 17%nat /\
    map fst (freads f') = [8; 8]%nat.
Proof.
  destruct (loadMatrix_stream_discipline sample_weights_stream (alloc 2 2 zero)
              2 2 (alloc_shape 2 2 zero) ltac:(lia))
    as (M' & f' & H1 & _ & _ & _ & H2 & H3 & _).
  exists M', f'. split; [exact H1 | split; [exact H2 | exact H3]].
Defined.

(** X12. On a stream that has no byte left, [loadMatrix] returns without
    an error and leaves every cell of the matrix and the read position as
    they were: a missing weight is not detected. *)
Theorem loadMatrix_at_end_of_stream (f : FILE) (M : Matrix) (r c : nat) :
  shape M r c -> (0 < r)%nat -> valid_matrix M ->
  (length (content f) <= position f)%nat ->
  exists f',
    loadMatrix f M = Ok (M, f') /\ position f' = position f.
Proof.
  intros HM Hr HV Hend.
  destruct (loadMatrix_general f M r c HM Hr)
    as (M' & f' & Hrun & HM' & _ & _ & Hp & _ & Hcells).
  rewrite length_drop in Hp, Hcells.
  exists f'. split; [| lia]. rewrite Hrun. f_equal. f_equal.
  apply (matrix_ext M' M r c); [assumption | assumption |].
  intros i j Hi Hj. destruct (Hcells i j Hi Hj) as [_ Hout].
  apply Hout; [lia |]. exact (valid_entry M r c i j HM HV Hi Hj).
Qed.

Lemma loadMatrix_at_end_of_stream_witness :
  exists f',
    loadMatrix sample_exhausted_stream sample_W = Ok (sample_W, f') /\
    position f' = position sample_exhausted_stream.
Proof.
  apply (loadMatrix_at_end_of_stream sample_exhausted_stream sample_W 2 2);
    [split; [reflexivity | repeat constructor] | lia | repeat constructor | simpl; lia].
Defined.

(** X13. Reading back what was written: when the bytes at the read
    position are the cells of an [r x c] matrix [W] in row-major order,
    each as the little-endian bit pattern of the float, [loadMatrix] into
    any [r x c] matrix returns exactly [W], advances the stream by
    [4 * r * c] bytes and leaves it at the bytes that follow. *)
Theorem loadMatrix_round_trip (f : FILE) (M W : Matrix) (r c : nat)
    (tail : list Byte.byte) :
  shape M r c -> shape W r c -> valid_matrix W -> (0 < r)%nat ->
  drop (position f) (content f) = matrix_bytes W ++ tail ->
  exists f',
    loadMatrix f M = Ok (W, f') /\
    content f' = content f /\
    closed f' = closed f /\
    position f' = (position f + 4 * r * c)%nat /\
    drop (position f') (content f') = tail.
Proof. exact (loadMatrix_decode f M W r c tail). Qed.

Lemma loadMatrix_round_trip_witness :
  exists f',
    loadMatrix sample_weights_stream (alloc 2 2 zero) = Ok (sample_W, f') /\
    content f' = content sample_weights_stream /\
    closed f' = closed sample_weights_stream /\
    position f' = (position sample_weights_stream + 4 * 2 * 2)%nat /\
    drop (position f') (content f') = [Byte.x2a].
Proof.
  apply (loadMatrix_round_trip sample_weights_stream (alloc 2 2 zero) sample_W
           2 2 [Byte.x2a]);
    [apply alloc_shape | split; [reflexivity | repeat constructor] | repeat constructor | lia
    | reflexivity].
Defined.

Lemma TransformerBlock_new_ok (d_model : Z) (f : FILE) :
  (0 < d_model)%Z ->
  let d := Z.to_nat d_model in
  let rest := drop (position f) (content f) in
  exists blk f',
    TransformerBlock_new d_model f = Ok (blk, f') /\
    shape (W_q blk) d d /\ shape (W_k blk) d d /\
    shape (W_v blk) d d /\ shape (W_out blk) d d /\
    content f' = content f /\
    closed f' = closed f /\
    position f' = (position f + length rest `min` (16 * d * d))%nat.
Proof.
  intros Hpos d rest.
  assert (Hd : (0 < d)%nat) by (subst d; lia).
  destruct (loadMatrix_general f (alloc d d zero) d d (alloc_shape d d zero) Hd)
    as (Mq & f1 & Hq & HMq & Hc1 & Hcl1 & Hp1 & _ & _).
  destruct (loadMatrix_general f1 (alloc d d zero) d d (alloc_shape d d zero) Hd)
    as (Mk & f2 & Hk & HMk & Hc2 & Hcl2 & Hp2 & _ & _).
  destruct (loadMatrix_general f2 (alloc d d zero) d d (alloc_shape d d zero) Hd)
    as (Mv & f3 & Hv & HMv & Hc3 & Hcl3 & Hp3 & _ & _).
  destruct (loadMatrix_general f3 (alloc d d zero) d d (alloc_shape d d zero) Hd)
    as (Mo & f4 & Ho & HMo & Hc4 & Hcl4 & Hp4 & _ & _).
  exists {| W_q := Mq; W_k := Mk; W_v := Mv; W_out := Mo |}, f4.
  split.
  - unfold TransformerBlock_new.
    destruct (d_model <? 0)%Z eqn:E; [apply Z.ltb_lt in E; lia |].
    fold d. rewrite Hq, bind_Ok. cbn [fst snd].
    rewrite Hk, bind_Ok. cbn [fst snd].
    rewrite Hv, bind_Ok. cbn [fst snd].
    rewrite Ho, bind_Ok. reflexivity.
  - cbn [W_q W_k W_v W_out]. repeat (split; [assumption |]).
    split; [congruence |]. split; [congruence |].
    assert (C2 : content f2 = content f) by congruence.
    assert (C3 : content f3 = content f) by congruence.
    rewrite length_drop in Hp1, Hp2, Hp3, Hp4.
    rewrite Hc1 in Hp2. rewrite C2 in Hp3. rewrite C3 in Hp4.
    subst rest. rewrite length_drop. nia.
Qed.

(** X14. The constructor reads back a model body: when the bytes at the
    read position are those of four [d x d] matrices one after the other,
    the block it returns has exactly these matrices as [W_q], [W_k], [W_v]
    and [W_out], in this order, and the stream is left after the
    [16 * d * d] bytes it read. *)
Theorem TransformerBlock_new_round_trip (d_model : Z) (f : FILE)
    (Wq Wk Wv Wo : Matrix) (tail : list Byte.byte) :
  (0 < d_model)%Z ->
  let d := Z.to_nat d_model in
  shape Wq d d -> shape Wk d d -> shape Wv d d -> shape Wo d d ->
  valid_matrix Wq -> valid_matrix Wk -> valid_matrix Wv -> valid_matrix Wo ->
  drop (position f) (content f) =
    matrix_bytes Wq ++ matrix_bytes Wk ++ matrix_bytes Wv ++ matrix_bytes Wo ++ tail ->
  exists f',
    TransformerBlock_new d_model f
      = Ok ({| W_q := Wq; W_k := Wk; W_v := Wv; W_out := Wo |}, f') /\
    position f' = (position f + 16 * d * d)%nat /\
    drop (position f') (content f') = tail.
Proof.
  intros Hpos d Hq Hk Hv Ho Vq Vk Vv Vo Hrest.
  assert (Hd : (0 < d)%nat) by (subst d; lia).
  destruct (loadMatrix_decode f (alloc d d zero) Wq d d _ (alloc_shape d d zero)
              Hq Vq Hd Hrest) as (f1 & H1 & _ & _ & Hp1 & Hr1).
  destruct (loadMatrix_decode f1 (alloc d d zero) Wk d d _ (alloc_shape d d zero)
              Hk Vk Hd Hr1) as (f2 & H2 & _ & _ & Hp2 & Hr2).
  destruct (loadMatrix_decode f2 (alloc d d zero) Wv d d _ (alloc_shape d d zero)
              Hv Vv Hd Hr2) as (f3 & H3 & _ & _ & Hp3 & Hr3).
  destruct (loadMatrix_decode f3 (alloc d d zero) Wo d d _ (alloc_shape d d zero)
              Ho Vo Hd Hr3) as (f4 & H4 & _ & _ & Hp4 & Hr4).
  exists f4. split; [| split; [lia | assumption]].
  unfold TransformerBlock_new.
  destruct (d_model <? 0)%Z eqn:E; [apply Z.ltb_lt in E; lia |].
  fold d. rewrite H1, bind_Ok. cbn [fst snd].
  rewrite H2, bind_Ok. cbn [fst snd].
  rewrite H3, bind_Ok. cbn [fst snd].
  rewrite H4, bind_Ok. reflexivity.
Qed.

Lemma TransformerBlock_new_round_trip_witness :
  exists f',
    TransformerBlock_new 1 unit_model_stream
      = Ok ({| W_q := [[one]]; W_k := [[one]]; W_v := [[one]]; W_out := [[one]] |},
            f') /\
    position f' = 28%nat /\
    drop (position f') (content f') = [].
Proof.
  assert (Hs : shape [[one]] 1 1) by (split; [reflexivity | repeat constructor]).
  assert (Hv : valid_matrix [[one]]) by (repeat constructor).
  exact (TransformerBlock_new_round_trip 1 unit_model_stream
           [[one]] [[one]] [[one]] [[one]] [] ltac:(lia)
           Hs Hs Hs Hs Hv Hv Hv Hv eq_refl).
Defined.

(** ** Runs of [main] *)

Lemma read_header_fopen (bytes : list Byte.byte) (magic0 layers0 d_model0 : Z) :
  (12 <= length bytes)%nat ->
  read_header (fopen bytes) magic0 layers0 d_model0 =
  (if decide (le_word (take 4 bytes) ≠ MAGIC)
   then (Err InvalidFormat,
         {| content := bytes; position := 4;
            freads := [(4, 4)%nat]; closed := false |})
   else (Ok (as_signed (le_word (take 4 (drop 4 bytes))),
             as_signed (le_word (take 4 (drop 8 bytes)))),
         {| content := bytes; position := 12;
            freads := [(4, 4); (4, 4); (4, 4)]%nat; closed := false |})).
Proof.
  intros Hlen. unfold read_header, fopen, fread.
  cbn [Nat.mul Nat.add content position freads closed]. rewrite drop_0.
  assert (H0 : length (take 4 bytes) = 4%nat) by (rewrite length_take; lia).
  assert (H1 : length (take 4 (drop 4 bytes)) = 4%nat)
    by (rewrite length_take, length_drop; lia).
  assert (H2 : length (take 4 (drop 8 bytes)) = 4%nat)
    by (rewrite length_take, length_drop; lia).
  rewrite (overwrite_full (le_bytes 4 magic0)) by (rewrite length_le_bytes; exact H0).
  rewrite H0. cbn [Nat.add].
  destruct (decide (le_word (take 4 bytes) ≠ MAGIC)); [reflexivity |].
  rewrite (overwrite_full (le_bytes 4 layers0)) by (rewrite length_le_bytes; exact H1).
  rewrite H1. cbn [Nat.add].
  rewrite (overwrite_full (le_bytes 4 d_model0)) by (rewrite length_le_bytes; exact H2).
  rewrite H2. reflexivity.
Qed.

(** X15. Every model file of at least twelve bytes that starts with the
    magic number and gives a positive [d_model] takes [main] through the
    whole run, however few bytes follow the header: the constructor reads
    what is there of the [16 * d_model^2] bytes of weights, the stream is
    closed, and the forward pass on the [3 x d_model] input returns a
    [3 x d_model] output. *)
Theorem main_runs_to_inference (expf : float -> float) (bytes : list Byte.byte)
    (magic0 layers0 d_model0 : Z) :
  (12 <= length bytes)%nat ->
  le_word (take 4 bytes) = MAGIC ->
  (0 < as_signed (le_word (take 4 (drop 8 bytes))))%Z ->
  let d := Z.to_nat (as_signed (le_word (take 4 (drop 8 bytes)))) in
  exists f O,
    main expf (Some bytes) magic0 layers0 d_model0 = (Some f, Ok O) /\
    shape O 3 d /\
    closed f = true /\
    content f = bytes /\
    position f = (12 + (length bytes - 12) `min` (16 * d * d))%nat.
Proof.
  intros Hlen Hmagic Hpos d. unfold main.
  rewrite (read_header_fopen bytes magic0 layers0 d_model0 Hlen).
  destruct (decide (le_word (take 4 bytes) ≠ MAGIC)); [contradiction |].
  set (f12 := {| content := bytes; position := 12;
                 freads := [(4, 4); (4, 4); (4, 4)]%nat; closed := false |}).
  destruct (TransformerBlock_new_ok _ f12 Hpos)
    as (blk & f' & Hrun & Hq & Hk & Hv & Ho & Hc & Hcl & Hp).
  rewrite Hrun.
  assert (Hd : (0 < d)%nat) by (subst d; lia).
  destruct (forward_shape expf blk (alloc 3 d half) 3 d Hq Hk Hv Ho
              (alloc_shape 3 d half) ltac:(lia) Hd) as (O & HO & HOs).
  exists (fclose f'), O. split; [| split; [assumption | split; [reflexivity |]]].
  - f_equal. fold d. rewrite dummy_input_fill, bind_Ok. exact HO.
  - cbn [fclose content position]. split; [exact Hc |].
    rewrite Hp. subst f12. cbn [position content]. rewrite length_drop. reflexivity.
Qed.

Lemma main_runs_to_inference_witness :
  exists f O,
    main expf_edge (Some unit_model_file) 0 0 0 = (Some f, Ok O) /\
    shape O 3 1 /\
    closed f = true /\
    content f = unit_model_file /\
    position f = 28%nat.
Proof.
  exact (main_runs_to_inference expf_edge unit_model_file 0 0 0
           ltac:(simpl; lia) eq_refl eq_refl).
Defined.

(** X16. A header with the magic number and a [d_model] that is not
    positive stops [main] inside the constructor, after the twelve bytes of
    the header and before [fclose]: a negative [d_model] makes the
    allocation of the weights throw the length error, and [d_model = 0]
    makes [loadMatrix] take the size of row 0 of a matrix without rows. *)
Theorem main_nonpositive_d_model (expf : float -> float) (bytes : list Byte.byte)
    (magic0 layers0 d_model0 : Z) :
  (12 <= length bytes)%nat ->
  le_word (take 4 bytes) = MAGIC ->
  (as_signed (le_word (take 4 (drop 8 bytes))) <= 0)%Z ->
  exists f,
    main expf (Some bytes) magic0 layers0 d_model0 =
      (Some f,
       Err (if (as_signed (le_word (take 4 (drop 8 bytes))) <? 0)%Z
            then LengthError else OutOfRange)) /\
    closed f = false /\ position f = 12%nat.
Proof.
  intros Hlen Hmagic Hle. unfold main.
  rewrite (read_header_fopen bytes magic0 layers0 d_model0 Hlen).
  destruct (decide (le_word (take 4 bytes) ≠ MAGIC)); [contradiction |].
  unfold TransformerBlock_new.
  destruct (Z.ltb_spec (as_signed (le_word (take 4 (drop 8 bytes)))) 0).
  - eexists. split; [reflexivity |]. split; reflexivity.
  - replace (as_signed (le_word (take 4 (drop 8 bytes)))) with 0%Z by lia.
    eexists. split; [reflexivity |]. split; reflexivity.
Qed.

Lemma main_nonpositive_d_model_witness :
  exists f,
    main expf_edge (Some zero_dim_file) 0 0 0 = (Some f, Err OutOfRange) /\
    closed f = false /\ position f = 12%nat.
Proof.
  exact (main_nonpositive_d_model expf_edge zero_dim_file 0 0 0
           ltac:(simpl; lia) eq_refl ltac:(discriminate)).
Defined.

Lemma for_loop_agree {S1 S2 : Type} (R : S1 -> S2 -> Prop) (n : nat)
    (b1 : nat -> S1 -> outcome S1) (b2 : nat -> S2 -> outcome S2)
    (s1 : S1) (s2 : S2) :
  R s1 s2 ->
  (forall i a b, R a b -> agree R (b1 i a) (b2 i b)) ->
  agree R (for_loop n b1 s1) (for_loop n b2 s2).
Proof.
  intros H0 Hstep. induction n as [|n IH]; [exact H0 |].
  rewrite !for_loop_S.
  destruct (for_loop n b1 s1) as [a | e1], (for_loop n b2 s2) as [b | e2];
    cbn in IH |- *; try contradiction; [apply Hstep; assumption | assumption].
Qed.

Lemma fread_same_rest (size count : nat) (f1 f2 : FILE) :
  same_rest f1 f2 ->
  (fread size count f1).1 = (fread size count f2).1 /\
  same_rest (fread size count f1).2 (fread size count f2).2.
Proof.
  unfold same_rest, fread. cbn [fst snd content position]. intros H.
  rewrite H. split; [reflexivity |].
  rewrite <- !drop_drop, H. reflexivity.
Qed.

Lemma loadMatrix_same_rest (f1 f2 : FILE) (M : Matrix) :
  same_rest f1 f2 ->
  agree (fun a b => a.1 = b.1 /\ same_rest a.2 b.2)
        (loadMatrix f1 M) (loadMatrix f2 M).
Proof.
  intros H. unfold loadMatrix.
  destruct (row_size M 0) as [c | e]; [| reflexivity]. rewrite !bind_Ok.
  apply for_loop_agree; [split; [reflexivity | exact H] |].
  intros i [M1 g1] [M2 g2] [EM Hg]. cbn [fst snd] in *. subst M2.
  destruct (M1 !! i) as [row |]; [| reflexivity].
  destruct (fread_same_rest 4 c g1 g2 Hg) as [Hgot Hrest].
  destruct (fread 4 c g1) as [got1 g1'], (fread 4 c g2) as [got2 g2'].
  cbn [fst snd] in *. subst got2.
  destruct (decide (length got1 <= 4 * length row)%nat); [| reflexivity].
  split; [reflexivity | exact Hrest].
Qed.

Lemma TransformerBlock_new_same_rest (d_model : Z) (f1 f2 : FILE) :
  same_rest f1 f2 ->
  agree (fun a b => a.1 = b.1 /\ same_rest a.2 b.2)
        (TransformerBlock_new d_model f1) (TransformerBlock_new d_model f2).
Proof.
  intros H. unfold TransformerBlock_new.
  destruct (d_model <? 0)%Z; [reflexivity |].
  set (Z0 := alloc (Z.to_nat d_model) (Z.to_nat d_model) zero).
  pose proof (loadMatrix_same_rest f1 f2 Z0 H) as A1.
  destruct (loadMatrix f1 Z0) as [[Mq g1] | e1], (loadMatrix f2 Z0) as [[Mq' g1'] | e1'];
    cbn in A1 |- *; try contradiction; [| assumption].
  destruct A1 as [<- A1].
  pose proof (loadMatrix_same_rest g1 g1' Z0 A1) as A2.
  destruct (loadMatrix g1 Z0) as [[Mk g2] | e2], (loadMatrix g1' Z0) as [[Mk' g2'] | e2'];
    cbn in A2 |- *; try contradiction; [| assumption].
  destruct A2 as [<- A2].
  pose proof (loadMatrix_same_rest g2 g2' Z0 A2) as A3.
  destruct (loadMatrix g2 Z0) as [[Mv g3] | e3], (loadMatrix g2' Z0) as [[Mv' g3'] | e3'];
    cbn in A3 |- *; try contradiction; [| assumption].
  destruct A3 as [<- A3].
  pose proof (loadMatrix_same_rest g3 g3' Z0 A3) as A4.
  destruct (loadMatrix g3 Z0) as [[Mo g4] | e4], (loadMatrix g3' Z0) as [[Mo' g4'] | e4'];
    cbn in A4 |- *; try contradiction; [| assumption].
  destruct A4 as [<- A4]. split; [reflexivity | assumption].
Qed.

(** X17. The layer count of the header is read and then never used: two
    model files of at least twelve bytes that differ only in the bytes 4
    to 7 give the same result of [main], the same output matrix or the
    same error, whatever the local variables held before the reads. *)
Theorem main_ignores_layers (expf : float -> float) (b1 b2 : list Byte.byte)
    (m1 l1 d1 m2 l2 d2 : Z) :
  (12 <= length b1)%nat -> (12 <= length b2)%nat ->
  take 4 b1 = take 4 b2 -> drop 8 b1 = drop 8 b2 ->
  (main expf (Some b1) m1 l1 d1).2 = (main expf (Some b2) m2 l2 d2).2.
Proof.
  intros H1 H2 Hmagic Hrest. unfold main.
  rewrite (read_header_fopen b1 m1 l1 d1 H1), (read_header_fopen b2 m2 l2 d2 H2).
  rewrite <- Hmagic, <- Hrest.
  destruct (decide (le_word (take 4 b1) ≠ MAGIC)); [reflexivity |].
  set (dm := as_signed (le_word (take 4 (drop 8 b1)))).
  set (f1 := {| content := b1; position := 12;
                freads := [(4, 4); (4, 4); (4, 4)]%nat; closed := false |}).
  set (f2 := {| content := b2; position := 12;
                freads := [(4, 4); (4, 4); (4, 4)]%nat; closed := false |}).
  assert (Hsame : same_rest f1 f2).
  { unfold same_rest, f1, f2. cbn [position content].
    change 12%nat with (8 + 4)%nat. rewrite <- !drop_drop, Hrest. reflexivity. }
  pose proof (TransformerBlock_new_same_rest dm f1 f2 Hsame) as A.
  destruct (TransformerBlock_new dm f1) as [[blk g1] | e1],
           (TransformerBlock_new dm f2) as [[blk' g2] | e2];
    cbn in A |- *; try contradiction; [| congruence].
  destruct A as [<- _]. reflexivity.
Qed.

Lemma main_ignores_layers_witness :
  (main expf_edge (Some unit_model_file) 0 0 0).2 =
  (main expf_edge (Some seven_layers_file) 0 0 0).2.
Proof.
  apply (main_ignores_layers expf_edge unit_model_file seven_layers_file);
    [simpl; lia | simpl; lia | reflexivity | reflexivity].
Defined.

(** ** Attention in closed form *)

Lemma row_as_map (M : Matrix) (r c i : nat) (row : list float) :
  shape M r c -> M !! i = Some row -> row = map (entry M i) (seq 0 c).
Proof.
  intros HM Hrow.
  assert (Hlen : length row = c)
    by (destruct HM as [_ Hf]; exact (Forall_lookup_1 _ _ _ _ Hf Hrow)).
  apply list_eq. intros j.
  change (map (entry M i) (seq 0 c)) with (fmap (M := list) (entry M i) (seq 0 c)).
  rewrite list_lookup_fmap.
  destruct (decide (j < c)%nat) as [Hj | Hj].
  - rewrite lookup_seq_lt by assumption. cbn [fmap option_fmap option_map Nat.add].
    destruct (lookup_lt_is_Some_2 row j) as [x Hx]; [lia |].
    rewrite Hx, (entry_row M i j row Hrow), Hx. reflexivity.
  - rewrite lookup_ge_None_2 by lia. rewrite lookup_seq_ge by lia. reflexivity.
Qed.

Lemma fold_left_ext_seq {A : Type} (f g : A -> nat -> A) (n : nat) (a : A) :
  (forall acc k, (k < n)%nat -> f acc k = g acc k) ->
  fold_left f (seq 0 n) a = fold_left g (seq 0 n) a.
Proof.
  intros H. induction n as [|n IH]; [reflexivity |].
  rewrite seq_S, !fold_left_app. cbn [fold_left Nat.add].
  rewrite IH by (intros; apply H; lia). apply H. lia.
Qed.

Section AttentionClosedForm.
Variable expf : float -> float.

(** X7. [attention] in closed form.  For [Q] ([nq x d]), [K] ([nk x d])
    and [V] ([nk x dv]): the score of query [i] and key [j] is the sum over
    [k] of [Q[i][k] * K[j][k]] (the rows of [K], not its columns) divided
    by [sqrt d]; the weights of query [i] are [softmax_row] of its [nk]
    scores; and the cell [(i, j)] of the result is the sum over the keys
    [k] of [weight i k * V[k][j]].  All sums start at [0.0f] and run in
    increasing [k]. *)
Theorem attention_closed_form (Q K V : Matrix) (nq nk d dv : nat) :
  shape Q nq d -> shape K nk d -> shape V nk dv ->
  (0 < nq)%nat -> (0 < nk)%nat -> (0 < d)%nat ->
  let scale := fsqrt (of_Z (Z.of_nat d)) in
  let score := fun i j =>
    fdiv (fold_left (fun acc k => fadd acc (fmul (entry Q i k) (entry K j k)))
                    (seq 0 d) zero) scale in
  let weights := fun i => softmax_row expf (map (score i) (seq 0 nk)) in
  exists R,
    attention expf Q K V = Ok R /\
    shape R nq dv /\
    forall i j, (i < nq)%nat -> (j < dv)%nat ->
      entry R i j =
      fold_left (fun acc k => fadd acc (fmul (nth k (weights i) zero) (entry V k j)))
                (seq 0 nk) zero.
Proof.
  intros HQ HK HV Hnq Hnk Hd scale score weights.
  destruct (transpose_ok K nk d HK Hnk) as (K_T & HT & HKT & HTe).
  destruct (matmul_ok Q K_T nq d nk HQ HKT Hnq Hd) as (S & HS & HSs & HSe).
  set (Sc := map (map (fun x => fdiv x scale)) S).
  assert (HSc : shape Sc nq nk) by (apply shape_map; assumption).
  pose proof (softmax_rows expf Sc nq nk HSc Hnq) as HP.
  set (P := map (softmax_row expf) Sc) in *.
  assert (HPs : shape P nq nk).
  { destruct HSc as [Hl Hf]. split; [unfold P; rewrite length_map; assumption |].
    apply Forall_map. eapply Forall_impl; [exact Hf |].
    intros row H. cbn. rewrite softmax_row_length. exact H. }
  destruct (matmul_ok P V nq nk dv HPs HV Hnq Hnk) as (R & HR & HRs & HRe).
  exists R. split; [| split; [assumption |]].
  - unfold attention. rewrite HT, bind_Ok, HS, bind_Ok.
    rewrite (row_size_shape Q nq d 0 HQ Hnq), bind_Ok.
    rewrite (scale_loop _ S nq nk HSs), bind_Ok.
    fold scale. fold Sc. rewrite HP, bind_Ok. exact HR.
  - intros i j Hi Hj. rewrite (HRe i j Hi Hj). unfold dot.
    apply fold_left_ext_seq. intros acc k Hk. do 2 f_equal.
    (* the weights of row i *)
    destruct (shape_lookup Sc nq nk i HSc Hi) as (row & Hrow & Hlen).
    assert (HProw : P !! i = Some (softmax_row expf row)).
    { unfold P. change (map (softmax_row expf) Sc)
        with (fmap (M := list) (softmax_row expf) Sc).
      rewrite list_lookup_fmap, Hrow. reflexivity. }
    rewrite (entry_row P i k _ HProw).
    assert (Erow : row = map (score i) (seq 0 nk)).
    { rewrite (row_as_map Sc nq nk i row HSc Hrow).
      apply map_ext_in. intros j' Hj'. apply in_seq in Hj'.
      unfold Sc. rewrite (entry_map _ S nq nk) by (try assumption; lia).
      unfold score. f_equal. rewrite HSe by (try assumption; lia). unfold dot.
      apply fold_left_ext_seq. intros acc' k' Hk'.
      rewrite HTe by (try assumption; lia). reflexivity. }
    rewrite Erow. fold (weights i).
    rewrite nth_lookup. reflexivity.
Qed.

End AttentionClosedForm.

Lemma attention_closed_form_witness :
  exists R,
    attention expf_edge sample_Q sample_K sample_V = Ok R /\ shape R 2 1.
Proof.
  assert (HQ : shape sample_Q 2 2) by (split; [reflexivity | repeat constructor]).
  assert (HK : shape sample_K 3 2) by (split; [reflexivity | repeat constructor]).
  assert (HV : shape sample_V 3 1) by (split; [reflexivity | repeat constructor]).
  destruct (attention_closed_form expf_edge sample_Q sample_K sample_V 2 3 2 1
              HQ HK HV ltac:(lia) ltac:(lia) ltac:(lia)) as (R & H1 & H2 & _).
  exists R. split; assumption.
Defined.

Local Open Scope Z_scope.

(** ** The header of an exhausted stream *)

Lemma fread_exhausted (size count : nat) (f : FILE) :
  (length (content f) <= position f)%nat ->
  fread size count f =
  ([], {| content := content f; position := position f;
          freads := (size * count, 0)%nat :: freads f; closed := closed f |}).
Proof.
  intros H. unfold fread. rewrite drop_ge by lia. rewrite take_nil.
  cbn [length]. rewrite Nat.add_0_r. reflexivity.
Qed.

(** X18. The header reads do not look at what [fread] returns.  On a
    stream without a byte left the three variables keep the bit patterns
    they held before: the run is rejected exactly when the old content of
    [magic] differs from the magic number, and otherwise goes on with the
    old contents of [layers] and [d_model]; nothing is consumed. *)
Theorem read_header_exhausted_stream (f : FILE) (magic0 layers0 d_model0 : Z) :
  (length (content f) <= position f)%nat ->
  0 <= magic0 < 4294967296 ->
  0 <= layers0 < 4294967296 ->
  0 <= d_model0 < 4294967296 ->
  let r := read_header f magic0 layers0 d_model0 in
  (r.1 = Err InvalidFormat <-> magic0 <> MAGIC) /\
  (magic0 = MAGIC -> r.1 = Ok (as_signed layers0, as_signed d_model0)) /\
  position r.2 = position f.
Proof.
  intros Hend Hm Hl Hd r. subst r. unfold read_header.
  rewrite (fread_exhausted 4 1 f Hend).
  change (overwrite (le_bytes 4 magic0) []) with (le_bytes 4 magic0).
  rewrite le_word_le_bytes. change (2 ^ (8 * Z.of_nat 4)) with 4294967296.
  rewrite Z.mod_small by assumption.
  destruct (decide (magic0 <> MAGIC)) as [Hne | Heq].
  - cbn [fst snd position]. split; [tauto |]. split; [congruence | reflexivity].
  - rewrite fread_exhausted by exact Hend.
    rewrite fread_exhausted by exact Hend.
    change (overwrite (le_bytes 4 layers0) []) with (le_bytes 4 layers0).
    change (overwrite (le_bytes 4 d_model0) []) with (le_bytes 4 d_model0).
    rewrite !le_word_le_bytes. change (2 ^ (8 * Z.of_nat 4)) with 4294967296.
    rewrite !Z.mod_small by assumption.
    cbn [fst snd position].
    split; [split; [discriminate | intros; contradiction] |].
    split; [reflexivity | reflexivity].
Qed.

Lemma read_header_exhausted_stream_witness :
  (read_header sample_exhausted_stream MAGIC 5 4294967295).1 = Ok (5, -1).
Proof.
  destruct (read_header_exhausted_stream sample_exhausted_stream MAGIC 5 4294967295
              ltac:(simpl; lia) ltac:(unfold MAGIC; lia) ltac:(lia) ltac:(lia))
    as (_ & H & _).
  apply H. reflexivity.
Defined.
